(** * HiBid scraper: the crawl engine of [hibid_scraper/scraper.py]

    A shallow embedding of the class [HiBidScraper] and of the Python
    values it handles, of the database address of [config.py], of the
    table of items of [database.py] and of the run of [main.py],
    followed by the properties of the crawl engine (identifier
    derivation, reference resolution, pagination, retries and the
    test-mode cap) and of the storage of what it yields. *)

From Stdlib Require Import ZArith Ascii.
From Stdlib Require String.
From stdpp Require Import base option list strings pretty gmap sets.

Local Open Scope Z_scope.
Set Warnings "-register-all,-clear-no-such-hyp".

(** ** Python values as [json.loads] builds them *)

(** The code looks at a float in two ways only: its truth value and its
    [str()]. A float is therefore carried as these two observations. *)
Record pyfloat := PyFloat { float_is_zero : bool; float_str : string }.

(** A [dict] keeps insertion order, which is also the order in which
    [.items()] iterates: an association list, keys of JSON objects being
    strings. *)
Inductive value :=
| VNone
| VBool (b : bool)
| VInt (n : Z)
| VFloat (f : pyfloat)
| VStr (s : string)
| VList (l : list value)
| VDict (d : list (string * value)).

Abbreviation dict := (list (string * value)).

(** [bool(v)]. *)
Definition py_bool (v : value) : bool :=
  match v with
  | VNone => false
  | VBool b => b
  | VInt n => negb (n =? 0)
  | VFloat f => negb (float_is_zero f)
  | VStr s => negb (bool_decide (s = ""))
  | VList l => match l with [] => false | _ :: _ => true end
  | VDict d => match d with [] => false | _ :: _ => true end
  end.

(** *** [repr()] and [str()]

    Strings are byte strings here; a byte above 127 stands for a part of
    a printable non-ASCII character, which [repr] leaves as it is. *)

Definition squote : ascii := ascii_of_nat 39.
Definition dquote : ascii := ascii_of_nat 34.
Definition backslash : ascii := ascii_of_nat 92.

Fixpoint str_has_char (c : ascii) (s : string) : bool :=
  match s with
  | EmptyString => false
  | String c' s' => bool_decide (c = c') || str_has_char c s'
  end.

Definition hex_digit (n : nat) : ascii :=
  ascii_of_nat (if (n <? 10)%nat then 48 + n else 87 + n)%nat.

Definition repr_char (quote c : ascii) : string :=
  let n := nat_of_ascii c in
  if bool_decide (c = quote) || bool_decide (c = backslash) then
    String backslash (String c "")
  else if (n =? 9)%nat then String backslash "t"
  else if (n =? 10)%nat then String backslash "n"
  else if (n =? 13)%nat then String backslash "r"
  else if (n <? 32)%nat || (n =? 127)%nat then
    String backslash
      (String "x" (String (hex_digit (n / 16)) (String (hex_digit (n mod 16)) "")))
  else String c "".

Fixpoint repr_chars (quote : ascii) (s : string) : string :=
  match s with
  | EmptyString => EmptyString
  | String c s' => repr_char quote c +:+ repr_chars quote s'
  end.

(** [repr(s)] of a [str]: single quotes, unless the text has a single
    quote and no double quote. *)
Definition repr_str (s : string) : string :=
  let quote :=
    if str_has_char squote s && negb (str_has_char dquote s)
    then dquote else squote in
  String quote (repr_chars quote s +:+ String quote "").

Fixpoint py_repr (v : value) : string :=
  match v with
  | VNone => "None"
  | VBool true => "True"
  | VBool false => "False"
  | VInt n => pretty n
  | VFloat f => float_str f
  | VStr s => repr_str s
  | VList l => "[" +:+ String.concat ", " (map py_repr l) +:+ "]"
  | VDict d =>
      "{" +:+ String.concat ", "
                (map (fun kv => repr_str (fst kv) +:+ ": " +:+ py_repr (snd kv)) d)
          +:+ "}"
  end.

(** [str(v)], which is also what an f-string field [{v}] produces. *)
Definition py_str (v : value) : string :=
  match v with
  | VStr s => s
  | _ => py_repr v
  end.

(** [v == s] for a string literal [s]. *)
Definition eq_str (v : value) (s : string) : bool :=
  match v with
  | VStr s' => bool_decide (s' = s)
  | _ => false
  end.

(** *** [dict] operations *)

(** [d.get(k)], with [None] of Python as [None] of [option]. *)
Fixpoint dict_get (k : string) (d : dict) : option value :=
  match d with
  | [] => None
  | (k', v) :: d' => if bool_decide (k' = k) then Some v else dict_get k d'
  end.

(** [k in d]. *)
Definition dict_has (k : string) (d : dict) : bool :=
  match dict_get k d with Some _ => true | None => false end.

(** [d[k] = v]: a key already present keeps its place, a new key goes
    to the end. *)
Fixpoint dict_set (k : string) (v : value) (d : dict) : dict :=
  match d with
  | [] => [(k, v)]
  | (k', v') :: d' =>
      if bool_decide (k' = k) then (k, v) :: d' else (k', v') :: dict_set k v d'
  end.

(** What is left of [d] after [d.pop(k)]. *)
Fixpoint dict_del (k : string) (d : dict) : dict :=
  match d with
  | [] => []
  | (k', v') :: d' =>
      if bool_decide (k' = k) then d' else (k', v') :: dict_del k d'
  end.

(** [s.replace(old, "")] for a non-empty [old]: occurrences are removed
    from left to right, without overlap. [skip] counts the characters of
    the current occurrence still to be dropped. *)
Fixpoint str_remove_go (old : string) (skip : nat) (s : string) : string :=
  match s with
  | EmptyString => EmptyString
  | String c s' =>
      match skip with
      | S k => str_remove_go old k s'
      | O =>
          if String.prefix old s
          then str_remove_go old (String.length old - 1) s'
          else String c (str_remove_go old O s')
      end
  end.

Definition str_remove (old s : string) : string := str_remove_go old O s.

(** ** Module constants *)

Definition HIBID_BASE_URL : string := "https://hibid.com".
Definition ITEMS_PER_PAGE : Z := 100.

(** ** [_get_item_id] *)

(** The loop [for field in [...]: if field in item and item[field]: return
    str(item[field])]. *)
Fixpoint id_from_fields (fields : list string) (item : dict) : option string :=
  match fields with
  | [] => None
  | field :: rest =>
      match dict_get field item with
      | Some v => if py_bool v then Some (py_str v) else id_from_fields rest item
      | None => id_from_fields rest item
      end
  end.

Definition _get_item_id (item : dict) : option string :=
  match id_from_fields ["id"; "itemId"; "eventItemId"] item with
  | Some s => Some s
  | None =>
      let typename := default (VStr "") (dict_get "__typename" item) in
      (* [typename == "Lot" and "id" in item], then [item['id']] *)
      match dict_get "id" item with
      | Some raw => if eq_str typename "Lot" then Some ("lot-" +:+ py_str raw) else None
      | None => None
      end
  end.

(** ** Exceptions

    The two exceptions the engine can raise on values built by
    [json.loads]: a method called on a value that has none of that name,
    and a list or dict used as a dictionary key. *)
Inductive exn := AttributeError | TypeError.

Inductive result (A : Type) :=
| Ok (a : A)
| Raise (e : exn).
Arguments Ok {A} a.
Arguments Raise {A} e.

Definition bind {A B} (r : result A) (k : A -> result B) : result B :=
  match r with
  | Ok a => k a
  | Raise e => Raise e
  end.

Notation "'let!' x ':=' r 'in' k" := (bind r (fun x => k))
  (at level 10, x name, r at level 100, k at level 200).

(** ** [_extract_lots_from_apollo] *)

(** [value.get("__typename") == tag or key.startswith(prefix)]. *)
Definition tagged (tag pre key : string) (fields : dict) : bool :=
  eq_str (default VNone (dict_get "__typename" fields)) tag || String.prefix pre key.

(** First pass: every Auction is filed under its own key and under
    ["Auction:<id>"]. *)
Fixpoint collect_auctions (items : dict) (auctions : gmap string value)
  : gmap string value :=
  match items with
  | [] => auctions
  | (key, VDict fields) :: rest =>
      if tagged "Auction" "Auction:" key fields then
        let auction_id :=
          if String.prefix "Auction:" key
          then VStr (str_remove "Auction:" key)
          else default VNone (dict_get "id" fields) in
        collect_auctions rest
          (<["Auction:" +:+ py_str auction_id := VDict fields]>
             (<[key := VDict fields]> auctions))
      else collect_auctions rest auctions
  | _ :: rest => collect_auctions rest auctions
  end.

(** [ref_key in table] followed by [table[ref_key]], for a table with
    string keys: a list or a dict cannot be hashed, any other value that
    is not a string is simply not a key. *)
Definition lookup_ref {T} (find : string -> T -> option value) (ref_key : value)
    (table : T) : result (option value) :=
  match ref_key with
  | VStr k => Ok (find k table)
  | VList _ | VDict _ => Raise TypeError
  | _ => Ok None
  end.

(** [isinstance(r, dict) and "__ref" in r], then [r["__ref"]]. *)
Definition ref_of (r : value) : option value :=
  match r with
  | VDict fields => dict_get "__ref" fields
  | _ => None
  end.

(** The resolution of the relation stored under [attr], the target
    going under [resolved]. *)
Definition resolve_ref {T} (find : string -> T -> option value) (table : T)
    (attr resolved : string) (lot : dict) : result dict :=
  match ref_of (default (VDict []) (dict_get attr lot)) with
  | Some ref_key =>
      let! target := lookup_ref find ref_key table in
      Ok match target with
         | Some t => dict_set resolved t lot
         | None => lot
         end
  | None => Ok lot
  end.

Definition resolve_lot (apollo_state : dict) (auctions : gmap string value)
    (fields : dict) : result dict :=
  let! lot := resolve_ref (fun k (m : gmap string value) => m !! k) auctions
                "auction" "_resolved_auction" fields in
  resolve_ref dict_get apollo_state "lotState" "_resolved_lotState" lot.

(** Second pass, over [items]; [apollo_state] is the whole cache. *)
Fixpoint collect_lots (apollo_state : dict) (auctions : gmap string value)
    (items : dict) : result (list dict) :=
  match items with
  | [] => Ok []
  | (key, VDict fields) :: rest =>
      if tagged "Lot" "Lot:" key fields then
        let! lot := resolve_lot apollo_state auctions fields in
        let! lots := collect_lots apollo_state auctions rest in
        Ok (lot :: lots)
      else collect_lots apollo_state auctions rest
  | _ :: rest => collect_lots apollo_state auctions rest
  end.

(** The argument is whatever [_extract_apollo_state] returned and the
    caller found truthy; [.items()] exists on a dict only. *)
Definition _extract_lots_from_apollo (apollo_state : value) : result (list dict) :=
  match apollo_state with
  | VDict items => collect_lots items (collect_auctions items ∅) items
  | _ => Raise AttributeError
  end.

(** ** [_enrich_lot_data] *)

(** [if src in d: d[dst] = d.pop(src)]. *)
Definition move_key (src dst : string) (d : dict) : dict :=
  match dict_get src d with
  | Some v => dict_set dst v (dict_del src d)
  | None => d
  end.

(** [if attr in d and isinstance(d[attr], dict): if "__ref" in d[attr]:
    d[dst] = d.pop(attr)["__ref"]]. *)
Definition move_ref (attr dst : string) (d : dict) : dict :=
  match ref_of (default VNone (dict_get attr d)) with
  | Some ref_key => dict_set dst ref_key (dict_del attr d)
  | None => d
  end.

Definition _enrich_lot_data (lot : dict) : dict :=
  let enriched := lot in
  let enriched := move_key "_resolved_auction" "auction_data" enriched in
  let enriched := move_key "_resolved_lotState" "lot_state_data" enriched in
  let enriched := move_ref "auction" "auction_ref" enriched in
  move_ref "lotState" "lot_state_ref" enriched.

(** ** Configuration and statistics *)

(** [config.Config]. *)
Record Config := {
  zip_code : string;
  radius_miles : Z;
  search_categories : list string;
  test_mode : bool;
  test_limit : Z;
  database_url : string;
  request_delay_min : Z;
  request_delay_max : Z;
  log_level : string
}.

Record ScrapeStats := {
  items_found : Z;
  items_added : Z;
  items_updated : Z;
  errors : Z;
  pages_scraped : Z
}.

(** [ScrapeStats()]. *)
Definition new_stats : ScrapeStats :=
  {| items_found := 0; items_added := 0; items_updated := 0;
     errors := 0; pages_scraped := 0 |}.

(** ** The outside world *)

(** BeautifulSoup and [json] are libraries. A response body is given by
    what [scrape_category] and [_extract_apollo_state] observe of it. *)
Inductive html :=
| HtmlEmpty                      (* the empty text *)
| HtmlNoScript                   (* no [script#hibid-state], or one without text *)
| HtmlBadJson                    (* [json.loads] raises [JSONDecodeError] *)
| HtmlState (state_data : value) (* [json.loads] returns [state_data] *).

(** [session.get(url, timeout=30)] followed by [raise_for_status()]. *)
Inductive response :=
| Response (text : html)
| RequestException.

(** What the scraper does to the world, in the order it does it.
    [scrape_all] hands on each pair of [scrape_category] with the
    category added, so one [EvYield] stands for both. *)
Inductive event :=
| EvGet (url : string)
| EvSleep (seconds : Z)          (* the backoff of [_fetch_page] *)
| EvDelay (lo hi : Z)            (* [_delay]: [sleep(random.uniform(lo, hi))] *)
| EvYield (item_id : string) (item : dict) (category : option string).

(** The answer to a request may depend on everything that happened
    before it. *)
Definition network := list event -> string -> response.

Record state := {
  stats : ScrapeStats;
  trace : list event
}.

Definition log (e : event) (st : state) : state :=
  {| stats := stats st; trace := trace st ++ [e] |}.

Definition with_stats (f : ScrapeStats -> ScrapeStats) (st : state) : state :=
  {| stats := f (stats st); trace := trace st |}.

Definition incr_errors (s : ScrapeStats) : ScrapeStats :=
  {| items_found := items_found s; items_added := items_added s;
     items_updated := items_updated s; errors := errors s + 1;
     pages_scraped := pages_scraped s |}.

Definition incr_pages_scraped (s : ScrapeStats) : ScrapeStats :=
  {| items_found := items_found s; items_added := items_added s;
     items_updated := items_updated s; errors := errors s;
     pages_scraped := pages_scraped s + 1 |}.

Definition incr_items_found (s : ScrapeStats) : ScrapeStats :=
  {| items_found := items_found s + 1; items_added := items_added s;
     items_updated := items_updated s; errors := errors s;
     pages_scraped := pages_scraped s |}.

(** How a run of a generator ends. The [while] loop of [scrape_category]
    need not end, so a run is given a number of iterations; when they are
    used up the run stops where it is, with everything done so far. *)
Inductive outcome :=
| Finished
| Raised (e : exn)
| OutOfFuel.

(** How one iteration of the [while] loop ends. *)
Inductive control := Continue | Break | Return.

(** [if s:] for an [Optional[str]]. *)
Definition truthy_str (s : option string) : bool :=
  match s with
  | Some s => negb (bool_decide (s = ""))
  | None => false
  end.

(** The local variables of [scrape_category] that live across
    iterations. *)
Record locals := {
  page : Z;
  total_items : Z;
  seen_ids : gset string
}.

(** ** [HiBidScraper] *)

Section HiBidScraper.

Variable config : Config.
Variable net : network.

Definition _delay (st : state) : state :=
  log (EvDelay (request_delay_min config) (request_delay_max config)) st.

Definition _build_url (category : option string) (page : Z) : string :=
  let url :=
    if truthy_str category
    then HIBID_BASE_URL +:+ "/lots/" +:+ default "" category +:+ "/"
    else HIBID_BASE_URL +:+ "/lots/" in
  url +:+ "?" +:+ "status=open" +:+ "&zip=" +:+ zip_code config
      +:+ "&miles=" +:+ pretty (radius_miles config)
      +:+ "&apage=" +:+ pretty page
      +:+ "&ipp=" +:+ pretty ITEMS_PER_PAGE.

Definition session_get (url : string) (st : state) : response * state :=
  (net (trace st) url, log (EvGet url) st).

(** The loop [for attempt in range(retries)], from [attempt] on, with
    [todo] attempts left. *)
Fixpoint fetch_attempts (url : string) (retries attempt : Z) (todo : nat)
    (st : state) : option html * state :=
  match todo with
  | O => (None, st)
  | S todo' =>
      match session_get url st with
      | (Response text, st) => (Some text, st)
      | (RequestException, st) =>
          if attempt <? retries - 1 then
            let wait_time := (attempt + 1) * 5 in
            fetch_attempts url retries (attempt + 1) todo' (log (EvSleep wait_time) st)
          else (None, with_stats incr_errors st)
      end
  end.

Definition _fetch_page_retries (url : string) (retries : Z) (st : state)
  : option html * state :=
  fetch_attempts url retries 0 (Z.to_nat retries) st.

(** [_fetch_page(url)], with the default [retries=3]. *)
Definition _fetch_page (url : string) (st : state) : option html * state :=
  _fetch_page_retries url 3 st.

Definition _extract_apollo_state (text : html) (st : state)
  : option value * state :=
  match text with
  | HtmlEmpty | HtmlNoScript => (None, st)
  | HtmlBadJson => (None, with_stats incr_errors st)
  | HtmlState (VDict state_data) =>
      (Some (default (VDict []) (dict_get "apollo.state" state_data)), st)
  | HtmlState _ =>
      (* [.get] on a value that is no dict: [except Exception] *)
      (None, with_stats incr_errors st)
  end.

(** The first [for] loop of an iteration: the lots not seen before. *)
Fixpoint filter_new (lots : list dict) (seen_ids : gset string)
  : list dict * gset string :=
  match lots with
  | [] => ([], seen_ids)
  | lot :: rest =>
      match _get_item_id lot with
      | Some item_id =>
          if truthy_str (Some item_id) && bool_decide (item_id ∉ seen_ids) then
            let '(new_lots, seen_ids) := filter_new rest ({[item_id]} ∪ seen_ids) in
            (lot :: new_lots, seen_ids)
          else filter_new rest seen_ids
      | None => filter_new rest seen_ids
      end
  end.

(** [total_items < test_limit], where [None] is [float("inf")]. *)
Definition below_limit (total_items : Z) (limit : option Z) : bool :=
  match limit with
  | Some l => total_items <? l
  | None => true
  end.

(** The second [for] loop of an iteration; [Return] is its [return],
    [Continue] its normal end. *)
Fixpoint emit_lots (category : option string) (limit : option Z)
    (new_lots : list dict) (total_items : Z) (st : state)
  : control * Z * state :=
  match new_lots with
  | [] => (Continue, total_items, st)
  | lot :: rest =>
      if negb (below_limit total_items limit) then (Return, total_items, st)
      else
        let item_id := _get_item_id lot in
        if truthy_str item_id then
          let enriched_lot := _enrich_lot_data lot in
          let st := with_stats incr_items_found st in
          emit_lots category limit rest (total_items + 1)
            (log (EvYield (default "" item_id) enriched_lot category) st)
        else
          emit_lots category limit rest total_items (with_stats incr_errors st)
  end.

(** One iteration of [while total_items < test_limit]. *)
Definition scrape_page (category : option string) (limit : option Z)
    (l : locals) (st : state) : result control * locals * state :=
  let url := _build_url category (page l) in
  let '(fetched, st) := _fetch_page url st in
  match fetched with
  | None | Some HtmlEmpty => (Ok Break, l, st)
  | Some text =>
      let '(apollo_state, st) := _extract_apollo_state text st in
      match apollo_state with
      | None => (Ok Break, l, st)
      | Some apollo_state =>
          if negb (py_bool apollo_state) then (Ok Break, l, st)
          else
            match _extract_lots_from_apollo apollo_state with
            | Raise e => (Raise e, l, st)
            | Ok lots =>
                let st := with_stats incr_pages_scraped st in
                let '(new_lots, seen) := filter_new lots (seen_ids l) in
                match new_lots with
                | [] =>
                    (Ok Break,
                     {| page := page l; total_items := total_items l;
                        seen_ids := seen |}, st)
                | _ :: _ =>
                    let '(c, total, st) :=
                      emit_lots category limit new_lots (total_items l) st in
                    match c with
                    | Return =>
                        (Ok Return,
                         {| page := page l; total_items := total;
                            seen_ids := seen |}, st)
                    | _ =>
                        if Z.of_nat (length lots) <? ITEMS_PER_PAGE `div` 2 then
                          (Ok Break,
                           {| page := page l; total_items := total;
                              seen_ids := seen |}, st)
                        else
                          (Ok Continue,
                           {| page := page l + 1; total_items := total;
                              seen_ids := seen |}, _delay st)
                    end
                end
            end
      end
  end.

Fixpoint scrape_category_loop (fuel : nat) (category : option string)
    (limit : option Z) (l : locals) (st : state) : outcome * state :=
  if negb (below_limit (total_items l) limit) then (Finished, st)
  else
    match fuel with
    | O => (OutOfFuel, st)
    | S fuel' =>
        match scrape_page category limit l st with
        | (Raise e, _, st) => (Raised e, st)
        | (Ok Continue, l, st) => scrape_category_loop fuel' category limit l st
        | (Ok _, _, st) => (Finished, st)
        end
    end.

(** [self.config.test_limit if self.config.test_mode else float("inf")]. *)
Definition session_limit : option Z :=
  if test_mode config then Some (test_limit config) else None.

Definition first_page : locals :=
  {| page := 1; total_items := 0; seen_ids := ∅ |}.

Definition scrape_category (fuel : nat) (category : option string) (st : state)
  : outcome * state :=
  scrape_category_loop fuel category session_limit first_page st.

(** The loop [for category in categories], over the categories still
    to do; [last] is [categories[-1]]. *)
Fixpoint scrape_categories (fuel : nat) (last : option string)
    (todo : list (option string)) (st : state) : outcome * state :=
  match todo with
  | [] => (Finished, st)
  | category :: rest =>
      match scrape_category fuel category st with
      | (Finished, st) =>
          if test_mode config && (test_limit config <=? items_found (stats st))
          then (Finished, st)
          else
            let st :=
              if bool_decide (category ≠ last) then _delay st else st in
            scrape_categories fuel last rest st
      | (o, st) => (o, st)
      end
  end.

(** [self.config.search_categories or [None]]. *)
Definition categories : list (option string) :=
  match search_categories config with
  | [] => [None]
  | cs => map Some cs
  end.

(** Every category is given [fuel] iterations. *)
Definition scrape_all (fuel : nat) (st : state) : outcome * state :=
  scrape_categories fuel (List.last categories None) categories st.

End HiBidScraper.

(** A scraper just built: [self.stats = ScrapeStats()], nothing done. *)
Definition initial : state := {| stats := new_stats; trace := [] |}.

(** ** Vocabulary of the properties *)

(** The identifiers handed to the caller, in order. *)
Definition yield_ids (t : list event) : list string :=
  omap (fun e => match e with EvYield i _ _ => Some i | _ => None end) t.

(** The requests sent, in order. *)
Definition requests (t : list event) : list string :=
  omap (fun e => match e with EvGet u => Some u | _ => None end) t.

(** The pair [scrape_category] yields for a lot. *)
Definition yield_of (category : option string) (lot : dict) : event :=
  EvYield (default "" (_get_item_id lot)) (_enrich_lot_data lot) category.

(** A candidate field that is present with a truthy value. *)
Definition truthy_field (field : string) (item : dict) : option value :=
  match dict_get field item with
  | Some v => if py_bool v then Some v else None
  | None => None
  end.

(** A lot from which an identifier can be derived. *)
Definition has_id (lot : dict) : Prop := truthy_str (_get_item_id lot) = true.

(** The identifiers of lots that have one. *)
Definition lot_ids (lots : list dict) : list string :=
  map (fun lot => default "" (_get_item_id lot)) lots.

(** A lot is new in a session that has seen [seen] when it has an
    identifier and that identifier was not seen. *)
Definition is_new (seen : gset string) (lot : dict) : bool :=
  match _get_item_id lot with
  | Some i => negb (bool_decide (i = "")) && bool_decide (i ∉ seen)
  | None => false
  end.

(** The lots of [new_lots] that the cap lets through when [total]
    items were emitted before them. *)
Definition emitted (limit : option Z) (total : Z) (new_lots : list dict)
  : list dict :=
  match limit with
  | Some l => take (Z.to_nat (l - total)) new_lots
  | None => new_lots
  end.

(** The entities of a cache that are recognized as lots, in the order
    of the cache. *)
Fixpoint lot_entities (items : dict) : list dict :=
  match items with
  | [] => []
  | (key, VDict fields) :: rest =>
      if tagged "Lot" "Lot:" key fields
      then fields :: lot_entities rest
      else lot_entities rest
  | _ :: rest => lot_entities rest
  end.

(** The key of the reference stored under [attr], if [attr] holds one. *)
Definition relation_ref (attr : string) (fields : dict) : option value :=
  ref_of (default (VDict []) (dict_get attr fields)).

(** A value that can be looked up in a dictionary: any but a list or a
    dict. *)
Definition hashable (v : value) : bool :=
  match v with
  | VList _ | VDict _ => false
  | _ => true
  end.

Definition refs_hashable (fields : dict) : bool :=
  from_option hashable true (relation_ref "auction" fields)
  && from_option hashable true (relation_ref "lotState" fields).

(** What is asked of the record made from the Lot entity [fields] of
    the cache [items], [lot] being what the resolver returned for it:
    an auction reference that resolves in the index has its target under
    [auction_data], the key of the reference is under [auction_ref],
    and the resolver passed the attributes of the entity on. *)
Definition hydrated (items fields lot : dict) : Prop :=
  let enriched := _enrich_lot_data lot in
  (forall k auction,
      relation_ref "auction" fields = Some (VStr k) ->
      collect_auctions items ∅ !! k = Some auction ->
      dict_get "auction_data" enriched = Some auction)
  /\ (forall r,
        relation_ref "auction" fields = Some r ->
        dict_get "auction_ref" enriched = Some r)
  /\ (forall k,
        k <> "_resolved_auction" -> k <> "_resolved_lotState" ->
        dict_get k lot = dict_get k fields).

(** A cache with a well-formed lot and a lot whose auction reference
    has a list as its key. *)
Definition unhashable_cache : dict :=
  [("Lot:1", VDict [("__typename", VStr "Lot"); ("id", VStr "1")]);
   ("Lot:2", VDict [("__typename", VStr "Lot"); ("id", VStr "2");
                    ("auction", VDict [("__ref", VList [])])])].

(** *** Sites and settings to run the scraper on *)

Definition lot_fields (n : Z) : dict :=
  [("__typename", VStr "Lot"); ("id", VInt n)].

(** The cache entry of lot [n]. *)
Definition lot_n (n : Z) : string * value :=
  ("Lot:" +:+ pretty n, VDict (lot_fields n)).

(** A page whose state script holds the cache [lots]. *)
Definition page_of (lots : dict) : html :=
  HtmlState (VDict [("apollo.state", VDict lots)]).

Definition settings (cats : list string) (test : bool) (limit : Z) : Config :=
  {| zip_code := "90210"; radius_miles := 50; search_categories := cats;
     test_mode := test; test_limit := limit;
     database_url := "sqlite:///hibid_auctions.db";
     request_delay_min := 2; request_delay_max := 5; log_level := "INFO" |}.

(** A site that answers the listed addresses, always in the same way,
    and fails on any other. *)
Fixpoint serve (pages : list (string * html)) (history : list event)
    (url : string) : response :=
  match pages with
  | [] => RequestException
  | (u, text) :: rest =>
      if bool_decide (u = url) then Response text else serve rest history url
  end.

(** A site that answers every request with a page without state
    script. *)
Definition bare_site : network := fun _ _ => Response HtmlNoScript.

(** Test mode capped at two items, over two categories: one lot under
    [a], three under [b]. *)
Definition capped : Config := settings ["a"; "b"] true 2.
Definition capped_site : network :=
  serve [(_build_url capped (Some "a") 1, page_of [lot_n 1]);
         (_build_url capped (Some "b") 1, page_of [lot_n 2; lot_n 3; lot_n 4])].

(** No category, no cap. *)
Definition plain : Config := settings [] false 20.

(** A page with a lot that has no identifier at all, and one that has. *)
Definition nameless_site : network :=
  serve [(_build_url plain None 1,
          page_of [("Lot:7", VDict [("title", VStr "chair")]); lot_n 8])].

(** A category listed twice. *)
Definition repeated : Config := settings ["a"; "b"; "a"] false 20.

(** One page of two lots, served as page 1 and again as page 2. *)
Definition two_lots_site : network :=
  serve [(_build_url plain None 1, page_of [lot_n 1; lot_n 2]);
         (_build_url plain None 2, page_of [lot_n 1; lot_n 2])].

(** The locals after a first page that yielded lots 1 and 2. *)
Definition second_page : locals :=
  {| page := 2; total_items := 2; seen_ids := {["1"; "2"]} |}.

(** A state script that holds the empty object. *)
Definition empty_object_site : network :=
  serve [(_build_url plain None 1, HtmlState (VDict []))].

(** The example of the specification, with the attribute names of the
    Apollo cache. *)
Definition spring_cache : dict :=
  [("Auction:1", VDict [("__typename", VStr "Auction");
                        ("eventName", VStr "Spring Sale")]);
   ("Lot:100", VDict [("__typename", VStr "Lot"); ("id", VStr "100");
                      ("auction", VDict [("__ref", VStr "Auction:1")])])].

(** The attribute names [_enrich_lot_data] reads or writes. *)
Definition relation_names : list string :=
  ["_resolved_auction"; "auction_data"; "_resolved_lotState"; "lot_state_data";
   "auction"; "auction_ref"; "lotState"; "lot_state_ref"].

(** What the resolver and the enrichment do with the [lotState]
    relation of the Lot entity [fields] of the cache [items]: a
    reference that resolves in the cache has its target under
    [lot_state_data], and the key of the reference is under
    [lot_state_ref]. *)
Definition state_hydrated (items fields lot : dict) : Prop :=
  let enriched := _enrich_lot_data lot in
  (forall k target,
      relation_ref "lotState" fields = Some (VStr k) ->
      dict_get k items = Some target ->
      dict_get "lot_state_data" enriched = Some target)
  /\ (forall r,
        relation_ref "lotState" fields = Some r ->
        dict_get "lot_state_ref" enriched = Some r).

(** The backoff sleeps, in order. *)
Definition sleeps (t : list event) : list Z :=
  omap (fun e => match e with EvSleep n => Some n | _ => None end) t.

(** A cache with a lot that has a status entity and refers to it. *)
Definition state_cache : dict :=
  [("LotState:9", VDict [("__typename", VStr "LotState"); ("status", VStr "OPEN")]);
   ("Lot:9", VDict [("__typename", VStr "Lot"); ("id", VInt 9);
                    ("lotState", VDict [("__ref", VStr "LotState:9")])])].

(** A site that is down. *)
Definition dead_site : network := fun _ _ => RequestException.

(** The categories of the pairs handed to the caller, in order. *)
Definition yield_categories (t : list event) : list (option string) :=
  omap (fun e => match e with EvYield _ _ c => Some c | _ => None end) t.

(** What a run over [category] that starts at page [first] may do: ask
    for a page of that category from [first] on, back off 5 or 10
    seconds, wait the configured delay, and hand on a record of that
    category under a non-empty identifier that can be derived from the
    record again. *)
Definition run_event (config : Config) (category : option string) (first : Z)
    (e : event) : Prop :=
  match e with
  | EvGet url => exists p, first <= p /\ url = _build_url config category p
  | EvSleep seconds => seconds = 5 \/ seconds = 10
  | EvDelay lo hi => lo = request_delay_min config /\ hi = request_delay_max config
  | EvYield item_id item c =>
      c = category /\ item_id <> "" /\ _get_item_id item = Some item_id
  end.

(** A cache [scrape_category] can take from [_extract_apollo_state]:
    a falsy value, or a dict in which no Lot has a list or a dict as a
    reference key. *)
Definition cache_ok (apollo_state : value) : bool :=
  negb (py_bool apollo_state)
  || match apollo_state with
     | VDict items => forallb refs_hashable (lot_entities items)
     | _ => false
     end.

(** A response body whose state, if it has one that is an object, holds
    such a cache. *)
Definition page_ok (text : html) : bool :=
  match text with
  | HtmlState (VDict state_data) =>
      cache_ok (default (VDict []) (dict_get "apollo.state" state_data))
  | _ => true
  end.

(** Two categories, no cap, and a site whose first page of the first
    category holds a Lot with a list as reference key. *)
Definition two_categories : Config := settings ["a"; "b"] false 20.
Definition broken_site : network :=
  serve [(_build_url two_categories (Some "a") 1, page_of unhashable_cache);
         (_build_url two_categories (Some "b") 1, page_of [lot_n 1])].

(** ** [Config]: the database address *)

(** [self.database_url.startswith("sqlite:")]. *)
Definition is_sqlite (config : Config) : bool :=
  String.prefix "sqlite:" (database_url config).

(** [self.database_url.startswith("postgresql:")]. *)
Definition is_postgres (config : Config) : bool :=
  String.prefix "postgresql:" (database_url config).

Definition get_sqlite_path (config : Config) : option string :=
  if is_sqlite config
  then Some (str_remove "sqlite:///" (database_url config))
  else None.

(** [old in s]. *)
Fixpoint str_occurs (old s : string) : bool :=
  String.prefix old s
  || match s with
     | EmptyString => false
     | String _ s' => str_occurs old s'
     end.

(** [settings] with another database address. *)
Definition with_database (url : string) : Config :=
  {| zip_code := "90210"; radius_miles := 50; search_categories := [];
     test_mode := false; test_limit := 20; database_url := url;
     request_delay_min := 2; request_delay_max := 5; log_level := "INFO" |}.

(** ** The grammar of a trace *)

(** What one [_fetch_page] adds: a request that is answered, or a
    failed request, 5 seconds and a second request that is answered, or
    two failed requests, each with its backoff, and a third request,
    answered or not. *)
Inductive fetch_trace (url : string) : list event -> Prop :=
| fetch_first : fetch_trace url [EvGet url]
| fetch_second : fetch_trace url [EvGet url; EvSleep 5; EvGet url]
| fetch_third :
    fetch_trace url [EvGet url; EvSleep 5; EvGet url; EvSleep 10; EvGet url].

(** What a run over [category] adds from page [p] on: nothing; or the
    fetch of page [p] and lots of that page, and the end; or the fetch of
    page [p], at least one lot of that page, one delay, and what a run
    adds from page [p + 1] on. *)
Inductive pages_trace (config : Config) (category : option string)
  : Z -> list event -> Prop :=
| pages_none p : pages_trace config category p []
| pages_last p gets lots :
    fetch_trace (_build_url config category p) gets ->
    Forall has_id lots ->
    pages_trace config category p (gets ++ map (yield_of category) lots)
| pages_next p gets lots rest :
    fetch_trace (_build_url config category p) gets ->
    Forall has_id lots -> lots <> [] ->
    pages_trace config category (p + 1) rest ->
    pages_trace config category p
      (gets ++ map (yield_of category) lots
            ++ EvDelay (request_delay_min config) (request_delay_max config) :: rest).

(** What a session adds over the categories [todo], [last] being the
    last configured one: nothing; or a run over the first category,
    and the end; or a run over the first category, then one delay unless
    that category has the name of the last one, then what a session adds
    over the other categories. *)
Inductive session_trace (config : Config) (last : option string)
  : list (option string) -> list event -> Prop :=
| session_none todo : session_trace config last todo []
| session_stop category rest run :
    pages_trace config category 1 run ->
    session_trace config last (category :: rest) run
| session_next category rest run others :
    pages_trace config category 1 run ->
    session_trace config last rest others ->
    session_trace config last (category :: rest)
      (run ++ (if bool_decide (category ≠ last)
               then [EvDelay (request_delay_min config) (request_delay_max config)]
               else [])
           ++ others).

(** ** [database.Database]: the table of items *)

(** A row of [auction_items]. *)
Record item_row := {
  row_id : Z;
  row_item_id : string;
  row_raw_json : string;
  row_scraped_at : string;
  row_zip_code : string;
  row_radius_miles : Z;
  row_category : option string;
  row_created_at : string
}.

(** The table, in the order of insertion, and the last key that
    [AUTOINCREMENT] gave out. Keys are integers without bound here;
    SQLite has 64-bit keys and refuses an insertion once the largest
    was given out. *)
Record Database := {
  auction_items : list item_row;
  last_row_id : Z
}.

(** [SELECT ... FROM auction_items WHERE item_id = ?], then
    [fetchone()]. *)
Definition select_item (item_id : string) (rows : list item_row)
  : option item_row :=
  List.find (fun r => bool_decide (row_item_id r = item_id)) rows.

(** The row [UPDATE auction_items SET raw_json = ?, scraped_at = ?,
    zip_code = ?, radius_miles = ?, category = ? WHERE item_id = ?]
    makes of a row. *)
Definition update_row (item_id json_str scraped_at zip_code : string)
    (radius_miles : Z) (category : option string) (r : item_row) : item_row :=
  if bool_decide (row_item_id r = item_id) then
    {| row_id := row_id r; row_item_id := row_item_id r;
       row_raw_json := json_str; row_scraped_at := scraped_at;
       row_zip_code := zip_code; row_radius_miles := radius_miles;
       row_category := category; row_created_at := row_created_at r |}
  else r.

Section Storage.

(** [json.dumps], a library function. *)
Variable dumps : dict -> string.

(** [upsert_item]. The two clock readings are arguments: [scraped_at]
    is [datetime.now(timezone.utc).isoformat()], and [created_at] is
    the [CURRENT_TIMESTAMP] that SQLite puts in a new row. The [INSERT]
    is only reached when no row has the identifier, so that it cannot
    break the [UNIQUE] constraint. *)
Definition upsert_item (db : Database) (item_id : string) (raw_json : dict)
    (zip_code : string) (radius_miles : Z) (category : option string)
    (scraped_at created_at : string) : (bool * bool) * Database :=
  let json_str := dumps raw_json in
  match select_item item_id (auction_items db) with
  | Some existing =>
      if negb (bool_decide (row_raw_json existing = json_str)) then
        ((false, true),
         {| auction_items :=
              map (update_row item_id json_str scraped_at zip_code radius_miles
                     category) (auction_items db);
            last_row_id := last_row_id db |})
      else ((false, false), db)
  | None =>
      ((true, false),
       {| auction_items :=
            auction_items db
            ++ [{| row_id := last_row_id db + 1; row_item_id := item_id;
                   row_raw_json := json_str; row_scraped_at := scraped_at;
                   row_zip_code := zip_code; row_radius_miles := radius_miles;
                   row_category := category; row_created_at := created_at |}];
          last_row_id := last_row_id db + 1 |})
  end.

(** [get_item]. *)
Definition get_item (db : Database) (item_id : string) : option item_row :=
  select_item item_id (auction_items db).

(** [get_item_count]. *)
Definition get_item_count (db : Database) : Z :=
  Z.of_nat (length (auction_items db)).

(** An item as [main] receives it from [scrape_all], with the two clock
    readings its [upsert_item] takes. *)
Record arrival := {
  arrival_item_id : string;
  arrival_raw_json : dict;
  arrival_category : option string;
  arrival_scraped_at : string;
  arrival_created_at : string
}.

(** The loop of [main] over the items of [scrape_all]: every item is
    stored, and the new and the updated ones are counted. *)
Fixpoint store_items (config : Config) (db : Database) (arrivals : list arrival)
    (items_added items_updated : Z) : Z * Z * Database :=
  match arrivals with
  | [] => (items_added, items_updated, db)
  | a :: rest =>
      let '((is_new, is_updated), db) :=
        upsert_item db (arrival_item_id a) (arrival_raw_json a)
          (zip_code config) (radius_miles config) (arrival_category a)
          (arrival_scraped_at a) (arrival_created_at a) in
      if is_new then store_items config db rest (items_added + 1) items_updated
      else if is_updated then store_items config db rest items_added (items_updated + 1)
      else store_items config db rest items_added items_updated
  end.

End Storage.

(** A stand-in for [json.dumps] to run the storage on: the text Python
    prints for the record. *)
Definition dumps_repr (raw_json : dict) : string := py_repr (VDict raw_json).

Definition empty_database : Database := {| auction_items := []; last_row_id := 0 |}.

(** The identifiers in the table. *)
Definition stored_ids (db : Database) : gset string :=
  list_to_set (map row_item_id (auction_items db)).

(** What the schema asks of the table: [item_id] is [UNIQUE], [id] is
    the primary key, and no key is above the last one [AUTOINCREMENT]
    gave out. *)
Definition table_ok (db : Database) : Prop :=
  NoDup (map row_item_id (auction_items db))
  /\ NoDup (map row_id (auction_items db))
  /\ Forall (fun r => row_id r <= last_row_id db) (auction_items db).

(** What stays of a row for ever: its key, its identifier and its time
    of creation. *)
Definition row_identity (r : item_row) : Z * string * string :=
  (row_id r, row_item_id r, row_created_at r).

(** The items of a trace as [main] receives them. The [n]-th
    [upsert_item] of the run reads the clocks as [clock n]. *)
Fixpoint arrivals (clock : nat -> string * string) (n : nat) (t : list event)
  : list arrival :=
  match t with
  | [] => []
  | EvYield item_id item category :: t =>
      {| arrival_item_id := item_id; arrival_raw_json := item;
         arrival_category := category;
         arrival_scraped_at := (clock n).1;
         arrival_created_at := (clock n).2 |}
      :: arrivals clock (S n) t
  | _ :: t => arrivals clock n t
  end.

(** The last arrival of an identifier. *)
Definition last_arrival (item_id : string) (arrivals : list arrival)
  : option arrival :=
  List.find (fun a => bool_decide (arrival_item_id a = item_id)) (rev arrivals).

(** What [complete_scrape_run] writes in the row of the run. *)
Record scrape_run := {
  run_items_found : Z;
  run_items_added : Z;
  run_items_updated : Z;
  run_errors : Z;
  run_status : string
}.

Section Main.

Variable dumps : dict -> string.
Variable clock : nat -> string * string.

(** [main], from the first request of a new scraper to the row of the
    run: the exit code, the row, and the table. The scraper does not
    read the table and the site does not see it, so that storing the
    items once the session is over leaves the table that storing each
    item when it is yielded leaves. An exception of the session is
    caught by [except Exception]; what was stored before it stays
    stored, each [upsert_item] having committed. A session that is cut
    short has no row. Failures of SQLite itself and the interruption
    from the keyboard are outside this model. *)
Definition main_run (config : Config) (net : network) (fuel : nat)
    (db : Database) : option (Z * scrape_run * Database) :=
  let '(o, st) := scrape_all config net fuel initial in
  let '(items_added, items_updated, db) :=
    store_items dumps config db (arrivals clock 0 (trace st)) 0 0 in
  match o with
  | Finished =>
      Some (0,
            {| run_items_found := items_found (stats st);
               run_items_added := items_added;
               run_items_updated := items_updated;
               run_errors := errors (stats st);
               run_status := "completed" |},
            db)
  | Raised _ =>
      Some (1,
            {| run_items_found := items_found (stats st);
               run_items_added := 0;
               run_items_updated := 0;
               run_errors := errors (stats st) + 1;
               run_status := "failed" |},
            db)
  | OutOfFuel => None
  end.

End Main.

(** A clock that stands still. *)
Definition noon : nat -> string * string :=
  fun _ => ("2024-01-01T12:00:00+00:00", "2024-01-01 12:00:00").

(** A site whose second category holds a Lot with a list as reference
    key, after a first category of one lot. *)
Definition late_broken_site : network :=
  serve [(_build_url two_categories (Some "a") 1, page_of [lot_n 1]);
         (_build_url two_categories (Some "b") 1, page_of unhashable_cache)].

(** * Properties *)

Section Fetch.

Context (config : Config) (net : network).

Lemma fetch_attempts_some url retries attempt todo st text st' :
  fetch_attempts net url retries attempt todo st = (Some text, st') ->
  stats st' = stats st.
Proof.
  revert attempt st. induction todo as [|todo IH]; intros attempt st; simpl.
  - discriminate.
  - destruct (net (trace st) url) as [body|].
    + intros [= _ <-]. reflexivity.
    + destruct (attempt <? retries - 1).
      * intros H. apply IH in H. exact H.
      * discriminate.
Qed.

Lemma fetch_attempts_trace url retries attempt todo st :
  exists evs,
    trace (fetch_attempts net url retries attempt todo st).2 = trace st ++ evs
    /\ yield_ids evs = []
    /\ Forall (fun u => u = url) (requests evs).
Proof.
  revert attempt st. induction todo as [|todo IH]; intros attempt st; simpl.
  - exists []. by rewrite app_nil_r.
  - destruct (net (trace st) url) as [body|]; simpl.
    + exists [EvGet url]. split_and!; [done | done | by repeat constructor].
    + destruct (attempt <? retries - 1); simpl.
      * destruct (IH (attempt + 1) (log (EvSleep ((attempt + 1) * 5)) (log (EvGet url) st)))
          as (evs & -> & Hy & Hr).
        exists (EvGet url :: EvSleep ((attempt + 1) * 5) :: evs). simpl.
        split_and!; [by rewrite <- !app_assoc | done | by constructor].
      * exists [EvGet url]. split_and!; [done | done | by repeat constructor].
Qed.

Lemma fetch_page_trace url st r st' :
  _fetch_page net url st = (r, st') ->
  exists evs, trace st' = trace st ++ evs /\ yield_ids evs = []
              /\ Forall (fun u => u = url) (requests evs).
Proof.
  intros H. unfold _fetch_page, _fetch_page_retries in H.
  destruct (fetch_attempts_trace url 3 0 (Z.to_nat 3) st) as (evs & Ht & Hy).
  rewrite H in Ht. eauto.
Qed.

Lemma fetch_attempts_errors url retries attempt todo st :
  let st' := (fetch_attempts net url retries attempt todo st).2 in
  errors (stats st) <= errors (stats st') <= errors (stats st) + 1.
Proof.
  revert attempt st. induction todo as [|todo IH]; intros attempt st; simpl.
  - lia.
  - destruct (net (trace st) url) as [body|]; simpl; [lia|].
    destruct (attempt <? retries - 1); simpl; [|lia].
    apply (IH (attempt + 1) (log (EvSleep ((attempt + 1) * 5)) (log (EvGet url) st))).
Qed.

Lemma fetch_page_some url st text st' :
  _fetch_page net url st = (Some text, st') -> stats st' = stats st.
Proof. apply fetch_attempts_some. Qed.

End Fetch.


(** ** The canonical identifier *)

Lemma id_from_fields_candidates (item : dict) :
  id_from_fields ["id"; "itemId"; "eventItemId"] item
  = match truthy_field "id" item, truthy_field "itemId" item,
          truthy_field "eventItemId" item with
    | Some v, _, _ | None, Some v, _ | None, None, Some v => Some (py_str v)
    | None, None, None => None
    end.
Proof.
  unfold truthy_field. simpl.
  destruct (dict_get "id" item) as [v1|]; [destruct (py_bool v1)|];
    (destruct (dict_get "itemId" item) as [v2|]; [destruct (py_bool v2)|]);
    (destruct (dict_get "eventItemId" item) as [v3|]; [destruct (py_bool v3)|]);
    reflexivity.
Qed.

Lemma eq_str_true (v : value) (s : string) : eq_str v s = true <-> v = VStr s.
Proof.
  destruct v; simpl; try (split; [discriminate | congruence]).
  rewrite bool_decide_eq_true. split; congruence.
Qed.

(** C4. The identifier of a lot is the text of the first of [id],
    [itemId], [eventItemId] that is present with a truthy value; when
    there is none, a lot tagged [Lot] that has an [id] at all gets
    ["lot-"] followed by that raw id; in every other case, and in no
    other, there is no identifier. *)
Theorem get_item_id_priority (item : dict) :
  (forall v, truthy_field "id" item = Some v ->
             _get_item_id item = Some (py_str v))
  /\ (truthy_field "id" item = None ->
      forall v, truthy_field "itemId" item = Some v ->
                _get_item_id item = Some (py_str v))
  /\ (truthy_field "id" item = None -> truthy_field "itemId" item = None ->
      forall v, truthy_field "eventItemId" item = Some v ->
                _get_item_id item = Some (py_str v))
  /\ (truthy_field "id" item = None -> truthy_field "itemId" item = None ->
      truthy_field "eventItemId" item = None ->
      forall raw, dict_get "__typename" item = Some (VStr "Lot") ->
                  dict_get "id" item = Some raw ->
                  _get_item_id item = Some ("lot-" +:+ py_str raw))
  /\ (_get_item_id item = None <->
      truthy_field "id" item = None /\ truthy_field "itemId" item = None
      /\ truthy_field "eventItemId" item = None
      /\ ~ (dict_get "__typename" item = Some (VStr "Lot")
            /\ is_Some (dict_get "id" item))).
Proof.
  unfold _get_item_id. rewrite id_from_fields_candidates.
  destruct (truthy_field "id" item) as [v1|];
    [|destruct (truthy_field "itemId" item) as [v2|];
      [|destruct (truthy_field "eventItemId" item) as [v3|]]].
  1-3: repeat split; try congruence; try discriminate;
       intros (? & ? & ? & ?); discriminate.
  assert (eq_str (default (VStr "") (dict_get "__typename" item)) "Lot" = true
          <-> dict_get "__typename" item = Some (VStr "Lot")) as Htag.
  { rewrite eq_str_true. destruct (dict_get "__typename" item); simpl;
      split; congruence. }
  destruct (dict_get "id" item) as [raw|] eqn:Eraw.
  - destruct (eq_str (default (VStr "") (dict_get "__typename" item)) "Lot") eqn:Et.
    + split_and!; try discriminate.
      * intros _ _ _ raw' _ [= <-]. reflexivity.
      * split; [discriminate|].
        intros (_ & _ & _ & H). exfalso. apply H. split; [by apply Htag | by eexists].
    + split_and!; try discriminate.
      * intros _ _ _ raw' Ht _. apply Htag in Ht. discriminate.
      * split; [|done]. intros _. split_and!; try done.
        intros [Ht _]. apply Htag in Ht. discriminate.
  - split_and!; try discriminate.
    split; [|done]. intros _. split_and!; try done. intros [_ [? [=]]].
Qed.

Lemma get_item_id_priority_witness :
  _get_item_id [("id", VInt 0); ("itemId", VStr ""); ("eventItemId", VInt 42)]
  = Some "42".
Proof.
  apply (proj1 (proj2 (proj2
    (get_item_id_priority
       [("id", VInt 0); ("itemId", VStr ""); ("eventItemId", VInt 42)])))
    eq_refl eq_refl (VInt 42)).
  reflexivity.
Defined.

(** ** Deduplication and emission *)

Lemma yield_ids_app (t u : list event) : yield_ids (t ++ u) = yield_ids t ++ yield_ids u.
Proof. apply omap_app. Qed.

Lemma requests_app (t u : list event) : requests (t ++ u) = requests t ++ requests u.
Proof. apply omap_app. Qed.

Lemma yield_ids_yields (category : option string) (lots : list dict) :
  yield_ids (map (yield_of category) lots) = lot_ids lots.
Proof. induction lots as [|lot lots IH]; simpl; [done | by rewrite <- IH]. Qed.

Lemma requests_yields (category : option string) (lots : list dict) :
  requests (map (yield_of category) lots) = [].
Proof. induction lots as [|lot lots IH]; simpl; done. Qed.

Lemma filter_new_cons (lot : dict) (lots : list dict) (seen : gset string) :
  filter_new (lot :: lots) seen
  = match _get_item_id lot with
    | Some i =>
        if truthy_str (Some i) && bool_decide (i ∉ seen)
        then (lot :: (filter_new lots ({[i]} ∪ seen)).1,
              (filter_new lots ({[i]} ∪ seen)).2)
        else filter_new lots seen
    | None => filter_new lots seen
    end.
Proof.
  simpl. destruct (_get_item_id lot) as [i|]; [|done].
  by destruct (_ && _), (filter_new lots ({[i]} ∪ seen)).
Qed.

Lemma filter_new_spec (lots : list dict) (seen : gset string) :
  let new_lots := (filter_new lots seen).1 in
  Forall has_id new_lots
  /\ NoDup (lot_ids new_lots)
  /\ (forall i, i ∈ lot_ids new_lots -> i ∉ seen)
  /\ (filter_new lots seen).2 = list_to_set (lot_ids new_lots) ∪ seen.
Proof.
  revert seen. induction lots as [|lot lots IH]; intros seen.
  { simpl. split_and!; [constructor | constructor | set_solver | set_solver]. }
  rewrite filter_new_cons.
  destruct (_get_item_id lot) as [i|] eqn:Ei; [|apply IH].
  destruct (truthy_str (Some i) && bool_decide (i ∉ seen)) eqn:Hc; [|apply IH].
  apply andb_true_iff in Hc as [Ht Hs]. apply bool_decide_eq_true in Hs.
  destruct (IH ({[i]} ∪ seen)) as (Hid & Hnd & Hfresh & Hseen).
  cbn [fst snd lot_ids map]. rewrite Ei. cbn [default]. split_and!.
  - constructor; [|done]. unfold has_id. by rewrite Ei.
  - constructor; [|done]. intros Hin. apply Hfresh in Hin. set_solver.
  - intros j [->|Hin]%elem_of_cons; [done|]. apply Hfresh in Hin. set_solver.
  - rewrite Hseen. set_solver.
Qed.

Lemma filter_new_nil (lots : list dict) (seen : gset string) :
  Forall (fun lot => is_new seen lot = false) lots ->
  filter_new lots seen = ([], seen).
Proof.
  induction 1 as [|lot lots Hlot _ IH]; [done|]. rewrite filter_new_cons.
  unfold is_new in Hlot. destruct (_get_item_id lot) as [i|]; [|done].
  unfold truthy_str. by rewrite Hlot.
Qed.

Lemma filter_new_app (a b : list dict) (seen : gset string) :
  filter_new (a ++ b) seen
  = ((filter_new a seen).1 ++ (filter_new b (filter_new a seen).2).1,
     (filter_new b (filter_new a seen).2).2).
Proof.
  revert seen. induction a as [|lot a IH]; intros seen.
  { simpl. by destruct (filter_new b seen). }
  rewrite <- app_comm_cons, !filter_new_cons.
  destruct (_get_item_id lot) as [i|]; [|apply IH].
  destruct (truthy_str (Some i) && bool_decide (i ∉ seen)); [|apply IH].
  by rewrite IH.
Qed.

Lemma emit_lots_spec (category : option string) (limit : option Z)
    (new_lots : list dict) (total : Z) (st : state) :
  Forall has_id new_lots ->
  let out := emitted limit total new_lots in
  let res := emit_lots category limit new_lots total st in
  res.1.1 <> Break
  /\ res.1.2 = total + Z.of_nat (length out)
  /\ trace res.2 = trace st ++ map (yield_of category) out
  /\ errors (stats res.2) = errors (stats st)
  /\ pages_scraped (stats res.2) = pages_scraped (stats st)
  /\ items_found (stats res.2) = items_found (stats st) + Z.of_nat (length out).
Proof.
  intros Hids. revert total st.
  induction Hids as [|lot rest Hlot _ IH]; intros total st; simpl.
  { destruct limit; simpl; rewrite ?take_nil, app_nil_r; simpl;
      split_and!; (done || lia). }
  unfold emitted. destruct (below_limit total limit) eqn:Hb; simpl.
  - rewrite Hlot.
    specialize (IH (total + 1)
      (log (EvYield (default "" (_get_item_id lot)) (_enrich_lot_data lot) category)
           (with_stats incr_items_found st))).
    simpl in IH. destruct IH as (Hc & Ht & Htr & He & Hp & Hf).
    assert (emitted limit total (lot :: rest) = lot :: emitted limit (total + 1) rest) as E.
    { unfold emitted. destruct limit as [l|]; [|done]. simpl in Hb.
      apply Z.ltb_lt in Hb.
      replace (Z.to_nat (l - total)) with (S (Z.to_nat (l - (total + 1)))) by lia.
      done. }
    fold (emitted limit total (lot :: rest)). rewrite E. simpl.
    split_and!; [done | lia | | done | done | lia].
    rewrite Htr. simpl. by rewrite <- app_assoc.
  - destruct limit as [l|]; [|discriminate]. simpl in Hb. apply Z.ltb_ge in Hb.
    replace (Z.to_nat (l - total)) with O by lia. simpl. rewrite app_nil_r.
    split_and!; (done || lia).
Qed.

(** ** Pagination *)

Section Pagination.

Context (config : Config) (net : network).
Context (category : option string) (limit : option Z).

Lemma extract_apollo_state_some text st apollo_state st' :
  _extract_apollo_state text st = (Some apollo_state, st') ->
  st' = st /\ text <> HtmlEmpty.
Proof.
  destruct text as [| | |[]]; simpl; intros [=]; subst; done.
Qed.

(** One iteration on a page that was fetched and whose cache was
    read. *)
Lemma scrape_page_loaded l st text st1 apollo_state st2 lots :
  _fetch_page net (_build_url config category (page l)) st = (Some text, st1) ->
  _extract_apollo_state text st1 = (Some apollo_state, st2) ->
  py_bool apollo_state = true ->
  _extract_lots_from_apollo apollo_state = Ok lots ->
  let st3 := with_stats incr_pages_scraped st1 in
  let new_lots := (filter_new lots (seen_ids l)).1 in
  let seen := (filter_new lots (seen_ids l)).2 in
  let res := emit_lots category limit new_lots (total_items l) st3 in
  scrape_page config net category limit l st
  = match new_lots with
    | [] => (Ok Break, {| page := page l; total_items := total_items l;
                          seen_ids := seen |}, st3)
    | _ :: _ =>
        match res.1.1 with
        | Return => (Ok Return, {| page := page l; total_items := res.1.2;
                                   seen_ids := seen |}, res.2)
        | _ =>
            if Z.of_nat (length lots) <? ITEMS_PER_PAGE `div` 2
            then (Ok Break, {| page := page l; total_items := res.1.2;
                               seen_ids := seen |}, res.2)
            else (Ok Continue, {| page := page l + 1; total_items := res.1.2;
                                  seen_ids := seen |},
                  _delay config res.2)
        end
    end.
Proof.
  intros Hf He Hb Hl. destruct (extract_apollo_state_some _ _ _ _ He) as [-> Hne].
  unfold scrape_page. rewrite Hf.
  destruct text; [done|..]; rewrite He, Hb, Hl; cbn -[emit_lots filter_new];
    destruct (filter_new lots (seen_ids l)) as [[|lot new_lots] seen];
    cbn -[emit_lots]; try done;
    destruct (emit_lots _ _ _ _ _) as [[[] total] st']; done.
Qed.

End Pagination.

(** C6. When the page the loop is at has no new lot (every lot lacks an
    identifier or was seen before), [scrape_category] ends there, for
    any number of iterations granted: nothing happens after the fetch of
    that page, so the only requests made are those for that page, and
    nothing is yielded. *)
Theorem no_new_lots_stops (config : Config) (net : network)
    (category : option string) (limit : option Z) (l : locals) (st : state)
    (text : html) (st1 : state) (apollo_state : value) (st2 : state)
    (lots : list dict) :
  below_limit (total_items l) limit = true ->
  _fetch_page net (_build_url config category (page l)) st = (Some text, st1) ->
  _extract_apollo_state text st1 = (Some apollo_state, st2) ->
  py_bool apollo_state = true ->
  _extract_lots_from_apollo apollo_state = Ok lots ->
  Forall (fun lot => is_new (seen_ids l) lot = false) lots ->
  forall fuel, exists st' evs,
    scrape_category_loop config net (S fuel) category limit l st = (Finished, st')
    /\ trace st' = trace st1
    /\ trace st' = trace st ++ evs
    /\ Forall (fun u => u = _build_url config category (page l)) (requests evs)
    /\ yield_ids evs = [].
Proof.
  intros Hlim Hf He Hb Hl Hnew fuel.
  pose proof (scrape_page_loaded config net category limit _ _ _ _ _ _ _ Hf He Hb Hl)
    as Hpage. cbn zeta in Hpage.
  rewrite (filter_new_nil _ _ Hnew) in Hpage. cbn [fst snd] in Hpage.
  destruct (fetch_page_trace net _ _ _ _ Hf) as (evs & Ht & Hy & Hr).
  exists (with_stats incr_pages_scraped st1), evs.
  cbn [scrape_category_loop]. rewrite Hlim, Hpage. simpl. done.
Qed.

(** C5. When the page the loop is at holds fewer raw lots than half
    [ITEMS_PER_PAGE], [scrape_category] ends there, for any number of
    iterations granted and whatever the share of duplicates: after the
    fetch of that page it only yields the new lots of the page, in
    order, and the only requests made are those for that page. All the
    new lots of the page are yielded, unless the cap of the test mode is
    reached among them, which ends the run as well. *)
Theorem partial_page_stops (config : Config) (net : network)
    (category : option string) (limit : option Z) (l : locals) (st : state)
    (text : html) (st1 : state) (apollo_state : value) (st2 : state)
    (lots : list dict) :
  below_limit (total_items l) limit = true ->
  _fetch_page net (_build_url config category (page l)) st = (Some text, st1) ->
  _extract_apollo_state text st1 = (Some apollo_state, st2) ->
  py_bool apollo_state = true ->
  _extract_lots_from_apollo apollo_state = Ok lots ->
  Z.of_nat (length lots) < ITEMS_PER_PAGE `div` 2 ->
  forall fuel, exists st' evs,
    scrape_category_loop config net (S fuel) category limit l st = (Finished, st')
    /\ trace st'
       = trace st1
         ++ map (yield_of category)
              (emitted limit (total_items l) (filter_new lots (seen_ids l)).1)
    /\ trace st' = trace st ++ evs
    /\ Forall (fun u => u = _build_url config category (page l)) (requests evs)
    /\ (limit = None
        \/ (exists cap, limit = Some cap
                        /\ total_items l
                           + Z.of_nat (length (filter_new lots (seen_ids l)).1) <= cap) ->
        emitted limit (total_items l) (filter_new lots (seen_ids l)).1
        = (filter_new lots (seen_ids l)).1).
Proof.
  intros Hlim Hf He Hb Hl Hlen fuel.
  pose proof (scrape_page_loaded config net category limit _ _ _ _ _ _ _ Hf He Hb Hl)
    as Hpage. cbn zeta in Hpage.
  destruct (filter_new_spec lots (seen_ids l)) as (Hids & _).
  destruct (emit_lots_spec category limit _ (total_items l)
              (with_stats incr_pages_scraped st1) Hids) as (Hc & _ & Htr & _).
  destruct (fetch_page_trace net _ _ _ _ Hf) as (evs & Ht & Hy & Hr).
  apply Z.ltb_lt in Hlen.
  set (new_lots := (filter_new lots (seen_ids l)).1) in *.
  set (res := emit_lots category limit new_lots (total_items l)
                (with_stats incr_pages_scraped st1)) in *.
  assert (exists st', scrape_category_loop config net (S fuel) category limit l st
                      = (Finished, st')
                      /\ trace st' = trace st1
                           ++ map (yield_of category) (emitted limit (total_items l) new_lots))
    as (st' & Hrun & Hst').
  { cbn [scrape_category_loop]. rewrite Hlim, Hpage. cbn [negb].
    destruct new_lots as [|lot new_lots'] eqn:En.
    - eexists. split; [done|]. unfold emitted. destruct limit; simpl;
        by rewrite ?take_nil, app_nil_r.
    - rewrite Hlen. destruct (res.1.1) eqn:Ec; [|done|]; eexists; (split; [done|]);
        exact Htr. }
  exists st', (evs ++ map (yield_of category) (emitted limit (total_items l) new_lots)).
  split_and!; [done | done | by rewrite Hst', Ht, app_assoc | |].
  - rewrite requests_app, requests_yields, app_nil_r. done.
  - intros [-> | (cap & -> & Hcap)]; [done|]. apply take_ge. lia.
Qed.


(** ** One identifier, one emission *)

Section Dedup.

Context (config : Config) (net : network).
Context (category : option string) (limit : option Z).

Lemma emitted_sublist total (new_lots : list dict) :
  lot_ids (emitted limit total new_lots) `sublist_of` lot_ids new_lots.
Proof.
  unfold emitted, lot_ids. destruct limit; [|done].
  apply fmap_sublist, sublist_take.
Qed.

(** An iteration either ends before any lot is looked at, or works on
    a page that was fetched and whose cache was read. *)
Lemma scrape_page_cases l st :
  (exists r st' evs,
      scrape_page config net category limit l st = (r, l, st')
      /\ r <> Ok Continue
      /\ trace st' = trace st ++ evs /\ yield_ids evs = []
      /\ errors (stats st) <= errors (stats st') <= errors (stats st) + 1)
  \/ (exists text st1 apollo_state lots,
        _fetch_page net (_build_url config category (page l)) st = (Some text, st1)
        /\ _extract_apollo_state text st1 = (Some apollo_state, st1)
        /\ py_bool apollo_state = true
        /\ _extract_lots_from_apollo apollo_state = Ok lots).
Proof.
  unfold scrape_page.
  pose proof (fetch_attempts_errors net (_build_url config category (page l))
                3 0 (Z.to_nat 3) st) as Herr. cbn zeta in Herr.
  fold (_fetch_page_retries net (_build_url config category (page l)) 3 st) in Herr.
  fold (_fetch_page net (_build_url config category (page l)) st) in Herr.
  destruct (_fetch_page net (_build_url config category (page l)) st)
    as [fetched st1] eqn:Hf.
  destruct (fetch_page_trace net _ _ _ _ Hf) as (evs & Ht & Hy & _).
  cbn [snd] in Herr.
  destruct fetched as [text|]; [|left; by exists (Ok Break), st1, evs].
  pose proof (fetch_page_some net _ _ _ _ Hf) as Hs.
  assert (forall st2, st2 = st1 \/ st2 = with_stats incr_errors st1 ->
            trace st2 = trace st ++ evs
            /\ errors (stats st) <= errors (stats st2) <= errors (stats st) + 1)
    as Hst2.
  { intros st2 [-> | ->]; simpl; rewrite Ht, Hs; split; (done || lia). }
  destruct text as [| | |state_data].
  - left. exists (Ok Break), st1, evs. split_and!; try done; apply Hst2; by left.
  - left. exists (Ok Break), st1, evs. split_and!; try done; apply Hst2; by left.
  - left. exists (Ok Break), (with_stats incr_errors st1), evs.
    split_and!; try done; apply Hst2; by right.
  - destruct (_extract_apollo_state (HtmlState state_data) st1)
      as [apollo st2] eqn:He.
    destruct apollo as [apollo_state|].
    2:{ left. exists (Ok Break), st2, evs.
        assert (st2 = st1 \/ st2 = with_stats incr_errors st1) as Hor
          by (destruct state_data; simpl in He; simplify_eq; auto).
        split_and!; try done; by apply Hst2. }
    destruct (extract_apollo_state_some _ _ _ _ He) as [-> _].
    destruct (py_bool apollo_state) eqn:Hb; cbn [negb].
    2:{ left. exists (Ok Break), st1, evs. split_and!; try done; apply Hst2; by left. }
    destruct (_extract_lots_from_apollo apollo_state) as [lots|e] eqn:Hl.
    2:{ left. exists (Raise e), st1, evs. split_and!; try done; apply Hst2; by left. }
    right. by exists (HtmlState state_data), st1, apollo_state, lots.
Qed.

(** What one iteration adds to the trace and to the counters. *)
Lemma scrape_page_effects l st :
  let res := scrape_page config net category limit l st in
  exists evs,
    trace res.2 = trace st ++ evs
    /\ NoDup (yield_ids evs)
    /\ (forall i, i ∈ yield_ids evs -> i ∉ seen_ids l)
    /\ errors (stats st) <= errors (stats res.2) <= errors (stats st) + 1
    /\ (res.1.1 = Ok Continue ->
        errors (stats res.2) = errors (stats st)
        /\ forall i, i ∈ seen_ids l \/ i ∈ yield_ids evs -> i ∈ seen_ids res.1.2).
Proof.
  cbn zeta.
  destruct (scrape_page_cases l st)
    as [(r & st' & evs & -> & Hr & Ht & Hy & He)
       |(text & st1 & apollo_state & lots & Hf & He & Hb & Hl)].
  { exists evs. rewrite Hy. cbn [fst snd].
    split_and!; [done | constructor | set_solver | lia | lia | done]. }
  rewrite (scrape_page_loaded config net category limit _ _ _ _ _ _ _ Hf He Hb Hl).
  destruct (fetch_page_trace net _ _ _ _ Hf) as (evs & Ht & Hy & _).
  pose proof (fetch_page_some net _ _ _ _ Hf) as Hs.
  destruct (filter_new_spec lots (seen_ids l)) as (Hids & Hnd & Hfresh & Hseen).
  destruct (emit_lots_spec category limit _ (total_items l)
              (with_stats incr_pages_scraped st1) Hids)
    as (Hc & _ & Htr & Herrs & _).
  pose proof (emitted_sublist (total_items l) (filter_new lots (seen_ids l)).1)
    as Hsub.
  set (new_lots := (filter_new lots (seen_ids l)).1) in *.
  set (res := emit_lots category limit new_lots (total_items l)
                (with_stats incr_pages_scraped st1)) in *.
  simpl in Herrs.
  destruct new_lots as [|lot new_lots'] eqn:En.
  { exists evs. rewrite Hy. cbn [fst snd]. simpl. rewrite Hs.
    split_and!; [done | constructor | set_solver | lia | lia | done]. }
  rewrite <- En in *.
  assert (forall i, i ∈ lot_ids (emitted limit (total_items l) new_lots) ->
                    i ∈ lot_ids new_lots) as Hin
    by (intros i Hi; by eapply elem_of_sublist).
  assert (NoDup (lot_ids (emitted limit (total_items l) new_lots))) as Hnd'
    by (by eapply sublist_NoDup).
  assert (trace res.2 = trace st ++ evs
            ++ map (yield_of category) (emitted limit (total_items l) new_lots))
    as Htr' by (cbn [with_stats trace] in Htr; by rewrite Htr, Ht, <- app_assoc).
  destruct (res.1.1); [|done|].
  - destruct (Z.of_nat (length lots) <? ITEMS_PER_PAGE `div` 2);
      cbn [fst snd _delay log trace stats seen_ids].
    + exists (evs ++ map (yield_of category) (emitted limit (total_items l) new_lots)).
      rewrite yield_ids_app, Hy, yield_ids_yields, Htr', Herrs, Hs. cbn [app].
      split_and!; [done | done | by (intros i Hi; apply Hfresh, Hin) | lia | lia | done].
    + exists (evs ++ map (yield_of category) (emitted limit (total_items l) new_lots)
                  ++ [EvDelay (request_delay_min config) (request_delay_max config)]).
      rewrite !yield_ids_app, Hy, yield_ids_yields, Htr', Herrs, Hs, <- !app_assoc.
      cbn [app yield_ids omap]. rewrite app_nil_r.
      split_and!; [done | done | by (intros i Hi; apply Hfresh, Hin) | lia | lia |].
      intros _. split; [done|]. intros i [Hi|Hi]; rewrite Hseen;
        [set_solver | apply Hin in Hi; set_solver].
  - cbn [fst snd].
    exists (evs ++ map (yield_of category) (emitted limit (total_items l) new_lots)).
    rewrite yield_ids_app, Hy, yield_ids_yields, Htr', Herrs, Hs. cbn [app].
    split_and!; [done | done | by (intros i Hi; apply Hfresh, Hin) | lia | lia | done].
Qed.

(** The invariant of the [while] loop: what a run adds to the trace
    has no identifier twice and none that was seen before, and it
    counts at most one error. *)
Lemma scrape_category_loop_effects fuel l st :
  let res := scrape_category_loop config net fuel category limit l st in
  exists evs,
    trace res.2 = trace st ++ evs
    /\ NoDup (yield_ids evs)
    /\ (forall i, i ∈ yield_ids evs -> i ∉ seen_ids l)
    /\ errors (stats st) <= errors (stats res.2) <= errors (stats st) + 1.
Proof.
  cbn zeta. revert l st. induction fuel as [|fuel IH]; intros l st;
    cbn [scrape_category_loop];
    (destruct (below_limit (total_items l) limit); cbn [negb];
     [|exists []; rewrite app_nil_r; simpl;
       split_and!; [done | constructor | set_solver | lia | lia]]).
  { exists []. rewrite app_nil_r. simpl.
    split_and!; [done | constructor | set_solver | lia | lia]. }
  destruct (scrape_page_effects l st) as (evs & Ht & Hnd & Hfresh & Herr & Hcont).
  destruct (scrape_page config net category limit l st) as [[r l'] st'].
  cbn [fst snd] in *.
  destruct r as [[]|e]; try by (exists evs).
  destruct (Hcont eq_refl) as [Herr' Hseen].
  destruct (IH l' st') as (evs' & Ht' & Hnd' & Hfresh' & Herr'').
  exists (evs ++ evs'). rewrite yield_ids_app.
  split_and!.
  - by rewrite Ht', Ht, app_assoc.
  - apply NoDup_app. split_and!; [done | | done].
    intros i Hi Hi'. apply Hfresh' in Hi'. apply Hi', Hseen. by right.
  - intros i [Hi|Hi]%elem_of_app; [by apply Hfresh|].
    intros Hin. apply Hfresh' in Hi. apply Hi, Hseen. by left.
  - lia.
  - lia.
Qed.

(** A page that was fetched and read counts no error, whatever its
    lots. *)
Lemma scrape_page_loaded_errors l st text st1 apollo_state st2 lots :
  _fetch_page net (_build_url config category (page l)) st = (Some text, st1) ->
  _extract_apollo_state text st1 = (Some apollo_state, st2) ->
  py_bool apollo_state = true ->
  _extract_lots_from_apollo apollo_state = Ok lots ->
  errors (stats (scrape_page config net category limit l st).2)
  = errors (stats st).
Proof.
  intros Hf He Hb Hl.
  rewrite (scrape_page_loaded config net category limit _ _ _ _ _ _ _ Hf He Hb Hl).
  pose proof (fetch_page_some net _ _ _ _ Hf) as Hs.
  destruct (filter_new_spec lots (seen_ids l)) as (Hids & _).
  destruct (emit_lots_spec category limit _ (total_items l)
              (with_stats incr_pages_scraped st1) Hids)
    as (_ & _ & _ & Herrs & _).
  set (new_lots := (filter_new lots (seen_ids l)).1) in *.
  set (res := emit_lots category limit new_lots (total_items l)
                (with_stats incr_pages_scraped st1)) in *.
  simpl in Herrs. clearbody res. clearbody new_lots.
  destruct new_lots; [simpl; by rewrite Hs|].
  destruct (res.1.1); try destruct (_ <? _);
    cbn [snd _delay log stats]; by rewrite Herrs, Hs.
Qed.

End Dedup.

(** The identifiers a pass over [lots] leaves in the seen set: those
    that were there, and those of the lots of the page. *)
Lemma filter_new_seen (lots : list dict) (seen : gset string) (i : string) :
  i ∈ (filter_new lots seen).2
  <-> i ∈ seen \/ (i <> "" /\ exists lot, lot ∈ lots /\ _get_item_id lot = Some i).
Proof.
  revert seen. induction lots as [|lot lots IH]; intros seen.
  { simpl. setoid_rewrite elem_of_nil. naive_solver. }
  rewrite filter_new_cons. setoid_rewrite elem_of_cons.
  destruct (_get_item_id lot) as [j|] eqn:Ej.
  2:{ rewrite IH. naive_solver. }
  unfold truthy_str.
  destruct (bool_decide_reflect (j = "")) as [->|Hj]; cbn [negb andb].
  { rewrite IH. naive_solver. }
  destruct (bool_decide_reflect (j ∉ seen)) as [Hn|Hn]; cbn [snd].
  - rewrite IH, elem_of_union, elem_of_singleton. naive_solver.
  - rewrite IH. apply dec_stable in Hn. naive_solver.
Qed.


(** ** Reference resolution *)

Lemma dict_get_set_eq (k : string) (v : value) (d : dict) :
  dict_get k (dict_set k v d) = Some v.
Proof.
  induction d as [|[k' v'] d IH]; simpl.
  - by rewrite bool_decide_eq_true_2.
  - destruct (bool_decide_reflect (k' = k)) as [->|Hne]; simpl.
    + by rewrite bool_decide_eq_true_2.
    + by rewrite bool_decide_eq_false_2.
Qed.

Lemma dict_get_set_ne (k k' : string) (v : value) (d : dict) :
  k <> k' -> dict_get k' (dict_set k v d) = dict_get k' d.
Proof.
  intros Hne. induction d as [|[k0 v0] d IH]; simpl.
  - by rewrite bool_decide_eq_false_2.
  - destruct (bool_decide_reflect (k0 = k)) as [->|Hne0]; simpl.
    + by rewrite !bool_decide_eq_false_2.
    + by rewrite IH.
Qed.

Lemma dict_get_del_ne (k k' : string) (d : dict) :
  k <> k' -> dict_get k' (dict_del k d) = dict_get k' d.
Proof.
  intros Hne. induction d as [|[k0 v0] d IH]; simpl; [done|].
  destruct (bool_decide_reflect (k0 = k)) as [->|Hne0]; simpl.
  - by rewrite bool_decide_eq_false_2.
  - by rewrite IH.
Qed.

Lemma move_key_get_ne (src dst k : string) (d : dict) :
  src <> k -> dst <> k -> dict_get k (move_key src dst d) = dict_get k d.
Proof.
  intros Hs Hd. unfold move_key. destruct (dict_get src d); [|done].
  by rewrite dict_get_set_ne, dict_get_del_ne.
Qed.

Lemma move_key_get_dst (src dst : string) (v : value) (d : dict) :
  dict_get src d = Some v -> dict_get dst (move_key src dst d) = Some v.
Proof. intros H. unfold move_key. rewrite H. apply dict_get_set_eq. Qed.

Lemma move_ref_get_ne (attr dst k : string) (d : dict) :
  attr <> k -> dst <> k -> dict_get k (move_ref attr dst d) = dict_get k d.
Proof.
  intros Hs Hd. unfold move_ref. destruct (ref_of _); [|done].
  by rewrite dict_get_set_ne, dict_get_del_ne.
Qed.

Lemma move_ref_get_dst (attr dst : string) (r : value) (d : dict) :
  ref_of (default VNone (dict_get attr d)) = Some r ->
  dict_get dst (move_ref attr dst d) = Some r.
Proof. intros H. unfold move_ref. rewrite H. apply dict_get_set_eq. Qed.

Lemma ref_of_default (o : option value) :
  ref_of (default VNone o) = ref_of (default (VDict []) o).
Proof. by destruct o. Qed.

(** What [resolve_ref] does to a lot whose reference key can be
    hashed. *)
Lemma resolve_ref_hashable {T} (find : string -> T -> option value) (table : T)
    (attr resolved : string) (lot : dict) :
  from_option hashable true (relation_ref attr lot) = true ->
  exists lot',
    resolve_ref find table attr resolved lot = Ok lot'
    /\ (forall k, resolved <> k -> dict_get k lot' = dict_get k lot)
    /\ (forall k target,
          relation_ref attr lot = Some (VStr k) -> find k table = Some target ->
          dict_get resolved lot' = Some target).
Proof.
  unfold resolve_ref, relation_ref. intros Hh.
  destruct (ref_of (default (VDict []) (dict_get attr lot))) as [ref_key|];
    [|by exists lot].
  destruct ref_key as [| | | |k| |]; simpl in *; try discriminate;
    try (by exists lot).
  destruct (find k table) as [target|] eqn:Hfind.
  - exists (dict_set resolved target lot). split_and!; [done | |].
    + intros k' Hne. by apply dict_get_set_ne.
    + intros k' target' [= <-] Hfind'. rewrite dict_get_set_eq. congruence.
  - exists lot. split_and!; [done | done |]. intros k' target' [= <-]. congruence.
Qed.

Lemma resolve_lot_hydrated (items : dict) (fields : dict) :
  refs_hashable fields = true ->
  exists lot,
    resolve_lot items (collect_auctions items ∅) fields = Ok lot
    /\ hydrated items fields lot.
Proof.
  unfold refs_hashable. intros [Ha Hs]%andb_true_iff.
  destruct (resolve_ref_hashable (fun k (m : gmap string value) => m !! k)
              (collect_auctions items ∅) "auction" "_resolved_auction" fields Ha)
    as (lot1 & E1 & Hkeep1 & Hres1).
  assert (relation_ref "lotState" lot1 = relation_ref "lotState" fields) as Hrel.
  { unfold relation_ref. by rewrite Hkeep1. }
  rewrite <- Hrel in Hs.
  destruct (resolve_ref_hashable dict_get items "lotState" "_resolved_lotState" lot1 Hs)
    as (lot & E2 & Hkeep2 & _).
  exists lot. split; [unfold resolve_lot; by rewrite E1|].
  unfold hydrated, _enrich_lot_data. split_and!.
  - intros k auction Hr Hidx.
    rewrite !move_ref_get_ne, move_key_get_ne by done.
    apply move_key_get_dst. rewrite Hkeep2 by done. by eapply Hres1.
  - intros r Hr.
    rewrite move_ref_get_ne by done. apply move_ref_get_dst.
    rewrite !move_key_get_ne, ref_of_default by done.
    by rewrite Hkeep2, Hkeep1.
  - intros k Hk1 Hk2. by rewrite Hkeep2, Hkeep1.
Qed.

Lemma collect_lots_hydrated (cache rest : dict) :
  Forall (fun fields => refs_hashable fields = true) (lot_entities rest) ->
  exists lots,
    collect_lots cache (collect_auctions cache ∅) rest = Ok lots
    /\ Forall2 (hydrated cache) (lot_entities rest) lots.
Proof.
  induction rest as [|[key v] rest IH]; simpl; intros Hh.
  { exists []. by split. }
  destruct v as [| | | | | |fields]; try (by apply IH).
  destruct (tagged "Lot" "Lot:" key fields); [|by apply IH].
  apply Forall_cons in Hh as [Hf Hh].
  destruct (resolve_lot_hydrated cache fields Hf) as (lot & -> & Hlot).
  destruct (IH Hh) as (lots & -> & Hlots).
  exists (lot :: lots). split; [done | by constructor].
Qed.

(** C3, as amended. In a cache where no Lot has a list or an object as
    the key of its [auction] or [lotState] reference, the resolver
    returns one record for each entity recognized as a Lot, in the order
    of the cache, resolved references or not. In the enriched record, an
    auction reference that resolves in the Auction index has the indexed
    Auction record under [auction_data], and the key of the reference is
    kept as it is under [auction_ref]. *)
Theorem resolver_keeps_every_lot (items : dict) :
  Forall (fun fields => refs_hashable fields = true) (lot_entities items) ->
  exists lots,
    _extract_lots_from_apollo (VDict items) = Ok lots
    /\ Forall2 (hydrated items) (lot_entities items) lots.
Proof. apply collect_lots_hydrated. Qed.

Lemma resolver_keeps_every_lot_witness :
  exists lots,
    _extract_lots_from_apollo (VDict spring_cache) = Ok lots
    /\ Forall2 (hydrated spring_cache) (lot_entities spring_cache) lots.
Proof.
  apply (resolver_keeps_every_lot spring_cache).
  repeat constructor.
Defined.

(** C3 as it stands does not hold: a Lot whose reference key is a list
    makes the membership test raise, and then no Lot at all is returned,
    the well-formed one no more than the other. *)
Lemma unhashable_ref_raises :
  length (lot_entities unhashable_cache) = 2%nat
  /\ _extract_lots_from_apollo (VDict unhashable_cache) = Raise TypeError
  /\ ~ exists lots, _extract_lots_from_apollo (VDict unhashable_cache) = Ok lots.
Proof.
  split_and!; [reflexivity | reflexivity |].
  intros [lots H]. vm_compute in H. discriminate.
Qed.

(** The example of the specification: one Lot, identifier ["100"], the
    sale inlined. *)
Example spring_sale :
  exists lot,
    _extract_lots_from_apollo (VDict spring_cache) = Ok [lot]
    /\ _get_item_id lot = Some "100"
    /\ (exists auction,
          dict_get "auction_data" (_enrich_lot_data lot) = Some (VDict auction)
          /\ dict_get "eventName" auction = Some (VStr "Spring Sale")).
Proof. eexists. split_and!; [reflexivity | reflexivity |]. eexists. by split. Qed.

(** ** Runs on concrete sites *)

(** C1. In test mode with a cap of two items and two categories, the
    first holding one lot and the second three, a session yields three
    items: [total_items] starts again from zero in every category, and
    [scrape_all] only looks at the session count between categories. *)
Theorem test_limit_exceeded :
  test_mode capped = true /\ test_limit capped = 2
  /\ exists st,
      scrape_all capped capped_site 3 initial = (Finished, st)
      /\ yield_ids (trace st) = ["1"; "2"; "3"]
      /\ items_found (stats st) = 3.
Proof. split_and!; [done | done |]. eexists. split_and!; reflexivity. Qed.

(** C2. A Lot without any identifier is dropped by the filter that also
    drops duplicates, before the loop that would count it: the session
    yields the other lot of the page and counts no error. *)
Theorem nameless_lot_not_counted :
  _get_item_id [("title", VStr "chair")] = None
  /\ exists st,
      scrape_all plain nameless_site 3 initial = (Finished, st)
      /\ yield_ids (trace st) = ["8"]
      /\ errors (stats st) = 0.
Proof. split; [reflexivity|]. eexists. split_and!; reflexivity. Qed.

(** C9. With the categories [a], [b], [a], no delay is applied between
    the first category and the second: the test that spares the delay
    after the last category compares names, and the first category has
    the name of the last. *)
Theorem repeated_category_skips_delay :
  scrape_all repeated bare_site 3 initial
  = (Finished,
     {| stats := new_stats;
        trace := [EvGet (_build_url repeated (Some "a") 1);
                  EvGet (_build_url repeated (Some "b") 1);
                  EvDelay 2 5;
                  EvGet (_build_url repeated (Some "a") 1)] |}).
Proof. reflexivity. Qed.

(** ** Instances *)

Lemma no_new_lots_stops_witness :
  exists st',
    scrape_category_loop plain two_lots_site 1 None None second_page initial
    = (Finished, st')
    /\ trace st' = [EvGet (_build_url plain None 2)].
Proof.
  destruct (no_new_lots_stops plain two_lots_site None None second_page initial
              (page_of [lot_n 1; lot_n 2])
              (log (EvGet (_build_url plain None 2)) initial)
              (VDict [lot_n 1; lot_n 2])
              (log (EvGet (_build_url plain None 2)) initial)
              [lot_fields 1; lot_fields 2]
              eq_refl eq_refl eq_refl eq_refl eq_refl
              ltac:(repeat constructor) 0%nat)
    as (st' & evs & Hrun & Htrace & _).
  exists st'. split; [exact Hrun | exact Htrace].
Defined.

Lemma partial_page_stops_witness :
  exists st',
    scrape_category_loop plain two_lots_site 1 None None first_page initial
    = (Finished, st')
    /\ yield_ids (trace st') = ["1"; "2"]
    /\ requests (trace st') = [_build_url plain None 1].
Proof.
  destruct (partial_page_stops plain two_lots_site None None first_page initial
              (page_of [lot_n 1; lot_n 2])
              (log (EvGet (_build_url plain None 1)) initial)
              (VDict [lot_n 1; lot_n 2])
              (log (EvGet (_build_url plain None 1)) initial)
              [lot_fields 1; lot_fields 2]
              eq_refl eq_refl eq_refl eq_refl eq_refl eq_refl 0%nat)
    as (st' & evs & Hrun & Htrace & _).
  exists st'. split; [exact Hrun|]. rewrite Htrace. split; reflexivity.
Defined.



(** * Further properties of the engine *)

(** ** Addresses *)

Lemma string_length_app (s t : string) :
  String.length (s +:+ t) = (String.length s + String.length t)%nat.
Proof. induction s as [|c s IH]; simpl; [done | by rewrite IH]. Qed.

Lemma string_app_inj_l (s1 s2 t : string) : s1 +:+ t = s2 +:+ t -> s1 = s2.
Proof.
  revert s2. induction s1 as [|c s1 IH]; intros [|c' s2] H; simpl in H.
  - done.
  - apply (f_equal String.length) in H. simpl in H.
    rewrite !string_length_app in H. simpl in H. lia.
  - apply (f_equal String.length) in H. simpl in H.
    rewrite !string_length_app in H. simpl in H. lia.
  - injection H as -> H. by rewrite (IH _ H).
Qed.

(** X1. Within one category, two pages have the same address only when
    they are the same page. *)
Theorem build_url_page_inj (config : Config) (category : option string) (p q : Z) :
  _build_url config category p = _build_url config category q <-> p = q.
Proof.
  split; [|by intros ->]. unfold _build_url. intros H.
  repeat apply String.app_inj in H.
  apply string_app_inj_l in H. by apply pretty_Z_inj in H.
Qed.

(** ** Enrichment *)

(** X2. Enrichment only touches the eight attribute names of the two
    relations: every other attribute of a lot is in the enriched record
    with the value it had, and is absent if it was absent. *)
Theorem enrich_passes_on (lot : dict) (k : string) :
  k ∉ relation_names ->
  dict_get k (_enrich_lot_data lot) = dict_get k lot.
Proof.
  unfold relation_names. rewrite !not_elem_of_cons.
  intros (? & ? & ? & ? & ? & ? & ? & ? & _).
  unfold _enrich_lot_data.
  by rewrite !move_ref_get_ne, !move_key_get_ne.
Qed.

Lemma enrich_passes_on_witness :
  dict_get "title" (_enrich_lot_data
                      [("title", VStr "chair");
                       ("auction", VDict [("__ref", VStr "Auction:1")])])
  = dict_get "title" [("title", VStr "chair");
                      ("auction", VDict [("__ref", VStr "Auction:1")])].
Proof.
  apply (enrich_passes_on
           [("title", VStr "chair"); ("auction", VDict [("__ref", VStr "Auction:1")])]
           "title").
  unfold relation_names. rewrite !not_elem_of_cons. split_and!; try done.
  apply not_elem_of_nil.
Defined.

Lemma get_item_id_ext (a b : dict) :
  (forall k, k ∈ ["id"; "itemId"; "eventItemId"; "__typename"] ->
             dict_get k a = dict_get k b) ->
  _get_item_id a = _get_item_id b.
Proof.
  intros H. unfold _get_item_id. cbn [id_from_fields].
  rewrite (H "id"), (H "itemId"), (H "eventItemId"), (H "__typename");
    [done | | | |]; rewrite !elem_of_cons; auto.
Qed.

Lemma get_item_id_enrich (lot : dict) :
  _get_item_id (_enrich_lot_data lot) = _get_item_id lot.
Proof.
  apply get_item_id_ext. intros k Hk. unfold _enrich_lot_data.
  rewrite !elem_of_cons, elem_of_nil in Hk.
  destruct Hk as [->|[->|[->|[->|[]]]]];
    by rewrite !move_ref_get_ne, !move_key_get_ne.
Qed.

(** X3. The identifier of a lot does not change with enrichment, nor
    with the resolution of its references before it: the record handed
    to the caller gives back the identifier of the entity it was made
    from. *)
Theorem enrich_keeps_item_id (lot : dict) :
  _get_item_id (_enrich_lot_data lot) = _get_item_id lot
  /\ forall items auctions lot',
      resolve_lot items auctions lot = Ok lot' ->
      _get_item_id (_enrich_lot_data lot') = _get_item_id lot.
Proof.
  split; [apply get_item_id_enrich|].
  intros items auctions lot' H. rewrite get_item_id_enrich.
  apply get_item_id_ext. intros k Hk.
  unfold resolve_lot in H.
  destruct (resolve_ref _ auctions "auction" "_resolved_auction" lot)
    as [lot1|e] eqn:E1; [|discriminate]. simpl in H.
  assert (forall {T} (find : string -> T -> option value) table attr resolved a b,
            resolve_ref find table attr resolved a = Ok b ->
            forall k0, resolved <> k0 -> dict_get k0 b = dict_get k0 a) as Hkeep.
  { intros T find table attr resolved a b. unfold resolve_ref.
    destruct (ref_of _) as [ref_key|]; [|by intros [= <-]].
    destruct (lookup_ref find ref_key table) as [[target|]|]; simpl;
      intros [= <-] k0 Hne; [by apply dict_get_set_ne | done]. }
  rewrite !elem_of_cons, elem_of_nil in Hk.
  rewrite (Hkeep _ _ _ _ _ _ _ H), (Hkeep _ _ _ _ _ _ _ E1);
    [done | |]; destruct Hk as [->|[->|[->|[->|[]]]]]; done.
Qed.

(** ** The resolver *)

(** What a successful [resolve_ref] returns. *)
Lemma resolve_ref_ok {T} (find : string -> T -> option value) (table : T)
    (attr resolved : string) (lot lot' : dict) :
  resolve_ref find table attr resolved lot = Ok lot' ->
  (forall k, resolved <> k -> dict_get k lot' = dict_get k lot)
  /\ (forall k target,
        relation_ref attr lot = Some (VStr k) -> find k table = Some target ->
        dict_get resolved lot' = Some target)
  /\ from_option hashable true (relation_ref attr lot) = true.
Proof.
  unfold resolve_ref, relation_ref.
  destruct (ref_of (default (VDict []) (dict_get attr lot))) as [ref_key|];
    [|by intros [= <-]].
  destruct ref_key as [| | | |k| |]; simpl; try discriminate;
    try (by intros [= <-]).
  destruct (find k table) as [target|] eqn:Hfind; intros [= <-]; split_and!; try done.
  - intros k' Hne. by apply dict_get_set_ne.
  - intros k' target' [= <-] Hfind'. rewrite dict_get_set_eq. congruence.
  - intros k' target' [= <-]. congruence.
Qed.

Lemma resolve_ref_unhashable {T} (find : string -> T -> option value) (table : T)
    (attr resolved : string) (lot : dict) :
  from_option hashable true (relation_ref attr lot) = false ->
  resolve_ref find table attr resolved lot = Raise TypeError.
Proof.
  unfold resolve_ref, relation_ref.
  destruct (ref_of (default (VDict []) (dict_get attr lot))) as [ref_key|];
    [|discriminate].
  by destruct ref_key.
Qed.

Lemma resolve_lot_ok (items : dict) (auctions : gmap string value)
    (fields lot : dict) :
  resolve_lot items auctions fields = Ok lot ->
  refs_hashable fields = true
  /\ (forall k, k <> "_resolved_auction" -> k <> "_resolved_lotState" ->
                dict_get k lot = dict_get k fields)
  /\ (forall k target,
        relation_ref "lotState" fields = Some (VStr k) ->
        dict_get k items = Some target ->
        dict_get "_resolved_lotState" lot = Some target).
Proof.
  unfold resolve_lot. intros H.
  destruct (resolve_ref _ auctions "auction" "_resolved_auction" fields)
    as [lot1|e] eqn:E1; [|discriminate]. simpl in H.
  apply resolve_ref_ok in E1 as (Hkeep1 & _ & Hh1).
  apply resolve_ref_ok in H as (Hkeep2 & Hres2 & Hh2).
  assert (relation_ref "lotState" lot1 = relation_ref "lotState" fields) as Hrel.
  { unfold relation_ref. by rewrite Hkeep1. }
  rewrite Hrel in Hh2, Hres2. split_and!.
  - unfold refs_hashable. by rewrite Hh1, Hh2.
  - intros k Hk1 Hk2. by rewrite Hkeep2, Hkeep1.
  - exact Hres2.
Qed.

Lemma resolve_lot_unhashable (items : dict) (auctions : gmap string value)
    (fields : dict) :
  refs_hashable fields = false ->
  resolve_lot items auctions fields = Raise TypeError.
Proof.
  unfold refs_hashable, resolve_lot. intros H.
  destruct (from_option hashable true (relation_ref "auction" fields)) eqn:Ha.
  - simpl in H.
    destruct (resolve_ref_hashable (fun k (m : gmap string value) => m !! k)
                auctions "auction" "_resolved_auction" fields Ha)
      as (lot1 & -> & Hkeep1 & _). simpl.
    apply resolve_ref_unhashable. unfold relation_ref in *. by rewrite Hkeep1.
  - by rewrite resolve_ref_unhashable.
Qed.

Lemma resolve_lot_total (items : dict) (auctions : gmap string value)
    (fields : dict) :
  refs_hashable fields = true ->
  exists lot, resolve_lot items auctions fields = Ok lot.
Proof.
  unfold refs_hashable, resolve_lot. intros [Ha Hs]%andb_true_iff.
  destruct (resolve_ref_hashable (fun k (m : gmap string value) => m !! k)
              auctions "auction" "_resolved_auction" fields Ha)
    as (lot1 & -> & Hkeep1 & _). simpl.
  assert (relation_ref "lotState" lot1 = relation_ref "lotState" fields) as Hrel
    by (unfold relation_ref; by rewrite Hkeep1).
  rewrite <- Hrel in Hs.
  destruct (resolve_ref_hashable dict_get items "lotState" "_resolved_lotState" lot1 Hs)
    as (lot & -> & _). by exists lot.
Qed.

Lemma collect_lots_unhashable (cache : dict) (auctions : gmap string value)
    (rest : dict) :
  Exists (fun fields => refs_hashable fields = false) (lot_entities rest) ->
  collect_lots cache auctions rest = Raise TypeError.
Proof.
  induction rest as [|[key v] rest IH]; simpl; intros Hex.
  { by apply Exists_nil in Hex. }
  destruct v as [| | | | | |fields]; try (by apply IH).
  destruct (tagged "Lot" "Lot:" key fields); [|by apply IH].
  destruct (refs_hashable fields) eqn:Hh.
  - apply Exists_cons in Hex as [Hex|Hex]; [congruence|].
    destruct (resolve_lot_total cache auctions fields Hh) as (lot & ->).
    simpl. by rewrite (IH Hex).
  - by rewrite resolve_lot_unhashable.
Qed.

Lemma collect_lots_total (cache : dict) (auctions : gmap string value)
    (rest : dict) :
  Forall (fun fields => refs_hashable fields = true) (lot_entities rest) ->
  exists lots, collect_lots cache auctions rest = Ok lots.
Proof.
  induction rest as [|[key v] rest IH]; simpl; intros Hall.
  { by exists []. }
  destruct v as [| | | | | |fields]; try (by apply IH).
  destruct (tagged "Lot" "Lot:" key fields); [|by apply IH].
  apply Forall_cons in Hall as [Hh Hall].
  destruct (resolve_lot_total cache auctions fields Hh) as (lot & ->).
  destruct (IH Hall) as (lots & ->). by exists (lot :: lots).
Qed.

(** What holds of each lot the resolver returns holds of the list it
    returns, entity by entity. *)
Lemma collect_lots_Forall2 (P : dict -> dict -> Prop) (cache : dict)
    (auctions : gmap string value) (rest : dict) (lots : list dict) :
  (forall fields lot, resolve_lot cache auctions fields = Ok lot -> P fields lot) ->
  collect_lots cache auctions rest = Ok lots ->
  Forall2 P (lot_entities rest) lots.
Proof.
  intros HP. revert lots. induction rest as [|[key v] rest IH]; simpl; intros lots H.
  { injection H as <-. constructor. }
  destruct v as [| | | | | |fields]; try (by apply IH).
  destruct (tagged "Lot" "Lot:" key fields); [|by apply IH].
  destruct (resolve_lot cache auctions fields) as [lot|] eqn:E; [|discriminate].
  simpl in H.
  destruct (collect_lots cache auctions rest) as [lots'|]; [|discriminate].
  injection H as <-. constructor; [by apply HP | by apply IH].
Qed.

(** X4. On a cache, the resolver fails in one way only: it raises
    [TypeError] exactly when some entity recognized as a Lot has a list
    or a dict as the key of its [auction] or [lotState] reference; in
    every other case it returns a list with one record for each such
    entity. Given anything that is not a dict it raises
    [AttributeError]. *)
Theorem extract_lots_errors (apollo_state : value) :
  match apollo_state with
  | VDict items =>
      (_extract_lots_from_apollo apollo_state = Raise TypeError
       <-> Exists (fun fields => refs_hashable fields = false) (lot_entities items))
      /\ ((exists lots, _extract_lots_from_apollo apollo_state = Ok lots
                        /\ length lots = length (lot_entities items))
          <-> Forall (fun fields => refs_hashable fields = true) (lot_entities items))
  | _ => _extract_lots_from_apollo apollo_state = Raise AttributeError
  end.
Proof.
  destruct apollo_state as [| | | | | |items]; try reflexivity. simpl.
  assert (Forall (fun fields => refs_hashable fields = true) (lot_entities items)
          \/ Exists (fun fields => refs_hashable fields = false) (lot_entities items))
    as [Hall|Hex].
  { induction (lot_entities items) as [|fields l IH]; [left; constructor|].
    destruct (refs_hashable fields) eqn:Hh; [|right; by left].
    destruct IH as [IH|IH]; [left; by constructor | right; by right]. }
  - destruct (collect_lots_total items (collect_auctions items ∅) items Hall)
      as (lots & Hlots).
    rewrite Hlots. split; split; try done.
    + intros Hex. exfalso. apply Exists_exists in Hex as (f & Hf & Hfalse).
      rewrite Forall_forall in Hall. specialize (Hall f Hf). congruence.
    + intros _. exists lots. split; [done|].
      symmetry. eapply Forall2_length.
      apply (collect_lots_Forall2 (fun _ _ => True) items
               (collect_auctions items ∅) items lots); done.
  - rewrite (collect_lots_unhashable _ _ _ Hex). split; split; try done.
    + intros (lots & [=] & _).
    + intros Hall. exfalso. apply Exists_exists in Hex as (f & Hf & Hfalse).
      rewrite Forall_forall in Hall. specialize (Hall f Hf). congruence.
Qed.

(** What the first pass leaves in the table it was given. *)
Lemma collect_auctions_spec (items : dict) (acc : gmap string value) :
  (forall k v,
      collect_auctions items acc !! k = Some v ->
      acc !! k = Some v
      \/ exists key fields,
          (key, VDict fields) ∈ items
          /\ tagged "Auction" "Auction:" key fields = true /\ v = VDict fields)
  /\ (forall k, is_Some (acc !! k) -> is_Some (collect_auctions items acc !! k))
  /\ (forall key fields,
        (key, VDict fields) ∈ items ->
        tagged "Auction" "Auction:" key fields = true ->
        is_Some (collect_auctions items acc !! key)
        /\ (String.prefix "Auction:" key = false ->
            is_Some (collect_auctions items acc
                       !! ("Auction:" +:+ py_str (default VNone (dict_get "id" fields)))))).
Proof.
  revert acc. induction items as [|[key v] items IH]; intros acc.
  { simpl. split_and!; [auto | auto |]. intros key fields []%elem_of_nil. }
  assert (forall acc', 
            (forall k v0, acc' !! k = Some v0 ->
               acc !! k = Some v0
               \/ exists key0 fields,
                   (key0, VDict fields) ∈ (key, v) :: items
                   /\ tagged "Auction" "Auction:" key0 fields = true
                   /\ v0 = VDict fields) ->
            forall k v0,
              collect_auctions items acc' !! k = Some v0 ->
              acc !! k = Some v0
              \/ exists key0 fields,
                  (key0, VDict fields) ∈ (key, v) :: items
                  /\ tagged "Auction" "Auction:" key0 fields = true
                  /\ v0 = VDict fields) as Hsound.
  { intros acc' Hacc k v0 Hk.
    destruct (proj1 (IH acc') k v0 Hk) as [Hin|(key0 & fields & Hin & Ht & ->)].
    - by apply Hacc.
    - right. exists key0, fields. split_and!; [by right | done | done]. }
  assert (forall key0 fields acc',
            (key0, VDict fields) ∈ items ->
            tagged "Auction" "Auction:" key0 fields = true ->
            is_Some (collect_auctions items acc' !! key0)
            /\ (String.prefix "Auction:" key0 = false ->
                is_Some (collect_auctions items acc'
                           !! ("Auction:"
                               +:+ py_str (default VNone (dict_get "id" fields))))))
    as Hlater.
  { intros key0 fields acc' Hin Ht. by apply (proj2 (proj2 (IH acc'))). }
  destruct v as [| | | | | |fields];
    try (simpl; split_and!;
         [ by apply Hsound; auto
         | by apply IH
         | intros key0 fields0 [[=]|Hin]%elem_of_cons Ht; by apply Hlater ]).
  cbn [collect_auctions].
  destruct (tagged "Auction" "Auction:" key fields) eqn:Htag.
  2:{ split_and!; [by apply Hsound; auto | by apply IH |].
      intros key0 fields0 [[= -> ->]|Hin]%elem_of_cons Ht; [congruence|].
      by apply Hlater. }
  set (alt := "Auction:" +:+ py_str
                (if String.prefix "Auction:" key
                 then VStr (str_remove "Auction:" key)
                 else default VNone (dict_get "id" fields))).
  split_and!.
  - apply Hsound. intros k v0 Hk.
    rewrite lookup_insert in Hk. destruct (decide (alt = k)) as [->|Hne1].
    { injection Hk as <-. right. exists key, fields. split_and!; [by left | done | done]. }
    rewrite lookup_insert in Hk. destruct (decide (key = k)) as [->|Hne2]; [|by left].
    injection Hk as <-. right. exists k, fields. split_and!; [by left | done | done].
  - intros k Hk. apply IH. rewrite lookup_insert. destruct (decide (alt = k)); [done|].
    rewrite lookup_insert. by destruct (decide (key = k)).
  - intros key0 fields0 [[= -> ->]|Hin]%elem_of_cons Ht; [|by apply Hlater].
    split.
    + apply IH. rewrite lookup_insert. destruct (decide (alt = key)); [done|].
      by rewrite lookup_insert_eq.
    + intros Hpre. apply IH. subst alt. rewrite Hpre. by rewrite lookup_insert_eq.
Qed.

(** X5. The Auction index of a cache holds Auction entities of that
    cache and nothing else. The key of every Auction entity is in the
    index, and so is ["Auction:<id>"] for an entity tagged [Auction]
    that is stored under a key of another form: a reference in either
    form resolves. *)
Theorem auction_index_entities (items : dict) :
  (forall k v,
      collect_auctions items ∅ !! k = Some v ->
      exists key fields,
        (key, VDict fields) ∈ items
        /\ tagged "Auction" "Auction:" key fields = true /\ v = VDict fields)
  /\ (forall key fields,
        (key, VDict fields) ∈ items ->
        tagged "Auction" "Auction:" key fields = true ->
        is_Some (collect_auctions items ∅ !! key)
        /\ (String.prefix "Auction:" key = false ->
            is_Some (collect_auctions items ∅
                       !! ("Auction:" +:+ py_str (default VNone (dict_get "id" fields)))))).
Proof.
  destruct (collect_auctions_spec items ∅) as (Hsound & _ & Hcomplete).
  split; [|exact Hcomplete].
  intros k v Hk. destruct (Hsound k v Hk) as [Hempty|H]; [|done].
  by rewrite lookup_empty in Hempty.
Qed.

(** X6. In a cache where no Lot has a list or a dict as a reference
    key, the [lotState] relation of every Lot is treated like its
    [auction] relation, but looked up in the whole cache: when the key
    of the reference is a key of the cache, the entity stored there is
    in the enriched record under [lot_state_data]; the key of the
    reference is under [lot_state_ref], resolved or not. *)
Theorem resolver_inlines_lot_state (items : dict) :
  Forall (fun fields => refs_hashable fields = true) (lot_entities items) ->
  exists lots,
    _extract_lots_from_apollo (VDict items) = Ok lots
    /\ Forall2 (state_hydrated items) (lot_entities items) lots.
Proof.
  intros Hall. simpl.
  destruct (collect_lots_total items (collect_auctions items ∅) items Hall)
    as (lots & Hlots).
  exists lots. split; [done|].
  apply (collect_lots_Forall2 _ items (collect_auctions items ∅) items lots); [|done].
  intros fields lot Hres. apply resolve_lot_ok in Hres as (_ & Hkeep & Hstate).
  unfold state_hydrated, _enrich_lot_data. split.
  - intros k target Hr Hk.
    rewrite !move_ref_get_ne by done. apply move_key_get_dst.
    rewrite move_key_get_ne by done. by eapply Hstate.
  - intros r Hr. apply move_ref_get_dst.
    rewrite move_ref_get_ne, !move_key_get_ne, ref_of_default by done.
    by rewrite Hkeep.
Qed.

Lemma resolver_inlines_lot_state_witness :
  exists lots,
    _extract_lots_from_apollo (VDict state_cache) = Ok lots
    /\ Forall2 (state_hydrated state_cache) (lot_entities state_cache) lots.
Proof.
  apply (resolver_inlines_lot_state state_cache). repeat constructor.
Defined.

(** ** Retries *)

Lemma fetch_attempts_exhausted (net : network) (url : string) (retries : Z)
    (todo : nat) (attempt : Z) (st : state) :
  (forall history, net history url = RequestException) ->
  attempt = retries - Z.of_nat todo ->
  let res := fetch_attempts net url retries attempt todo st in
  res.1 = None
  /\ stats res.2 = (if decide (todo = O) then stats st else incr_errors (stats st))
  /\ exists evs,
      trace res.2 = trace st ++ evs
      /\ requests evs = replicate todo url
      /\ sleeps evs = (fun i => 5 * (attempt + Z.of_nat i)) <$> seq 1 (todo - 1)
      /\ length evs = (todo + (todo - 1))%nat.
Proof.
  intros Hdown. revert attempt st.
  induction todo as [|todo IH]; intros attempt st Hatt; cbn zeta.
  { simpl. split_and!; [done | done |]. exists []. by rewrite app_nil_r. }
  cbn [fetch_attempts]. unfold session_get. rewrite Hdown.
  destruct todo as [|todo'].
  - replace (attempt <? retries - 1) with false by lia. simpl.
    split_and!; [done | done |]. by exists [EvGet url].
  - replace (attempt <? retries - 1) with true by lia.
    destruct (IH (attempt + 1) (log (EvSleep ((attempt + 1) * 5)) (log (EvGet url) st)))
      as (Hnone & Hstats & evs & Ht & Hr & Hs & Hlen); [lia|].
    split_and!; [done | done |].
    exists (EvGet url :: EvSleep ((attempt + 1) * 5) :: evs). split_and!.
    + rewrite Ht. simpl. by rewrite <- !app_assoc.
    + simpl. fold (requests evs). by rewrite Hr.
    + simpl. fold (sleeps evs). rewrite Hs. f_equal; [lia|].
      replace (S todo' - 0)%nat with (S todo') by lia.
      replace (S todo' - 1)%nat with todo' by lia.
      rewrite <- (fmap_S_seq 1), <- list_fmap_compose. apply list_fmap_ext.
      intros _ i _. simpl. lia.
    + simpl. rewrite Hlen. lia.
Qed.



(** ** The shape of a run *)

Lemma emitted_cons (limit : option Z) (total : Z) (lot : dict) (rest : list dict) :
  below_limit total limit = true ->
  emitted limit total (lot :: rest) = lot :: emitted limit (total + 1) rest.
Proof.
  unfold emitted. destruct limit as [cap|]; [|done]. simpl.
  intros Hb%Z.ltb_lt.
  replace (Z.to_nat (cap - total)) with (S (Z.to_nat (cap - (total + 1)))) by lia.
  done.
Qed.

Lemma emitted_length (limit : option Z) (total : Z) (new_lots : list dict) :
  (length (emitted limit total new_lots) <= length new_lots)%nat
  /\ forall cap, limit = Some cap ->
       Z.of_nat (length (emitted limit total new_lots)) <= Z.max 0 (cap - total).
Proof.
  unfold emitted. destruct limit as [cap|]; [|split; [done|discriminate]].
  rewrite length_take. split; [lia|]. intros ? [= <-]. lia.
Qed.

(** The loop over the new lots ends by its normal end only when it has
    handed on every one of them. *)
Lemma emit_lots_continue (category : option string) (limit : option Z)
    (new_lots : list dict) (total : Z) (st : state) :
  Forall has_id new_lots ->
  (emit_lots category limit new_lots total st).1.1 = Continue ->
  emitted limit total new_lots = new_lots.
Proof.
  intros Hids. revert total st.
  induction Hids as [|lot rest Hlot _ IH]; intros total st.
  { intros _. unfold emitted. destruct limit; [by rewrite take_nil | done]. }
  cbn [emit_lots]. destruct (below_limit total limit) eqn:Hb; [|discriminate].
  cbn [negb]. rewrite Hlot. intros Hc. rewrite emitted_cons by done.
  f_equal. by eapply IH.
Qed.

(** The events of one [_fetch_page]. *)
Lemma fetch_page_events (net : network) (url : string) (st : state) :
  exists evs,
    trace (_fetch_page net url st).2 = trace st ++ evs
    /\ Forall (fun e => e = EvGet url \/ e = EvSleep 5 \/ e = EvSleep 10) evs
    /\ fetch_trace url evs.
Proof.
  unfold _fetch_page, _fetch_page_retries. simpl.
  change ((0 + 1 + 1) * 5) with 10. change ((0 + 1) * 5) with 5.
  unfold with_stats, log. simpl. rewrite <- !app_assoc. simpl.
  destruct (net (trace st) url) as [text1|]; simpl.
  { exists [EvGet url]. split_and!; [done | | constructor]. repeat constructor. }
  destruct (net (trace st ++ [EvGet url; EvSleep 5]) url) as [text2|]; simpl.
  { exists [EvGet url; EvSleep 5; EvGet url]. split_and!; [done | | constructor].
    repeat (constructor; [auto|]). constructor. }
  exists [EvGet url; EvSleep 5; EvGet url; EvSleep 10; EvGet url].
  split_and!; [by destruct (net _ url) | | constructor].
  repeat (constructor; [auto|]). constructor.
Qed.

(** A page that [_fetch_page] returns is one the site sent. *)
Lemma fetch_page_from_site (net : network) (url : string) (st : state)
    (text : html) (st' : state) :
  _fetch_page net url st = (Some text, st') ->
  exists history, net history url = Response text.
Proof.
  unfold _fetch_page, _fetch_page_retries.
  generalize (Z.to_nat 3) as todo, 0 as attempt. intros todo. revert st.
  induction todo as [|todo IH]; intros st attempt; simpl; [discriminate|].
  destruct (net (trace st) url) as [body|] eqn:E.
  - intros [= -> _]. eauto.
  - destruct (attempt <? 3 - 1); [apply IH | discriminate].
Qed.

Lemma fetch_page_items_found (net : network) (url : string) (st : state) :
  items_found (stats (_fetch_page net url st).2) = items_found (stats st).
Proof.
  unfold _fetch_page, _fetch_page_retries.
  generalize (Z.to_nat 3) as todo, 0 as attempt. intros todo. revert st.
  induction todo as [|todo IH]; intros st attempt; simpl; [done|].
  destruct (net (trace st) url) as [body|]; [done|].
  destruct (attempt <? 3 - 1); [by rewrite IH | done].
Qed.

Section Shape.

Context (config : Config) (net : network).
Context (category : option string) (limit : option Z).

(** An iteration either ends the run in the state the fetch left, but
    for the error count, or works on a page that was fetched and
    read. *)
Lemma scrape_page_stopped_or_loaded l st :
  let fetched := _fetch_page net (_build_url config category (page l)) st in
  (exists r st',
      scrape_page config net category limit l st = (r, l, st')
      /\ (r = Ok Break \/ exists e, r = Raise e)
      /\ trace st' = trace fetched.2
      /\ items_found (stats st') = items_found (stats st))
  \/ (exists text apollo_state lots,
        fetched = (Some text, fetched.2)
        /\ _extract_apollo_state text fetched.2 = (Some apollo_state, fetched.2)
        /\ py_bool apollo_state = true
        /\ _extract_lots_from_apollo apollo_state = Ok lots).
Proof.
  cbn zeta. unfold scrape_page.
  pose proof (fetch_page_items_found net (_build_url config category (page l)) st)
    as Hfound.
  destruct (_fetch_page net (_build_url config category (page l)) st)
    as [fetched st1]. cbn [snd] in *.
  destruct fetched as [text|]; [|left; exists (Ok Break), st1; auto].
  destruct text as [| | |state_data].
  - left. exists (Ok Break), st1. auto.
  - left. exists (Ok Break), st1. auto.
  - left. exists (Ok Break), (with_stats incr_errors st1). auto.
  - destruct (_extract_apollo_state (HtmlState state_data) st1)
      as [apollo st2] eqn:He.
    assert (trace st2 = trace st1
            /\ items_found (stats st2) = items_found (stats st1)) as [Ht2 Hf2].
    { destruct state_data; simpl in He; by simplify_eq. }
    destruct apollo as [apollo_state|].
    2:{ left. exists (Ok Break), st2. split_and!; [done | auto | done | congruence]. }
    destruct (extract_apollo_state_some _ _ _ _ He) as [-> _].
    destruct (py_bool apollo_state) eqn:Hb; cbn [negb].
    2:{ left. exists (Ok Break), st1. auto. }
    destruct (_extract_lots_from_apollo apollo_state) as [lots|e] eqn:Hl.
    2:{ left. exists (Raise e), st1. split_and!; [done | eauto | done | done]. }
    right. by exists (HtmlState state_data), apollo_state, lots.
Qed.

(** What one iteration adds to the trace: the events of the fetch, the
    lots handed on, and the delay when the loop goes on. *)
Lemma scrape_page_shape l st :
  let res := scrape_page config net category limit l st in
  exists gets lots' tail,
    trace res.2 = trace st ++ gets ++ map (yield_of category) lots' ++ tail
    /\ (Forall (fun e => e = EvGet (_build_url config category (page l))
                         \/ e = EvSleep 5 \/ e = EvSleep 10) gets
        /\ fetch_trace (_build_url config category (page l)) gets)
    /\ Forall has_id lots'
    /\ items_found (stats res.2) = items_found (stats st) + Z.of_nat (length lots')
    /\ (forall cap, limit = Some cap ->
                    Z.of_nat (length lots') <= Z.max 0 (cap - total_items l))
    /\ match res.1.1 with
       | Ok Continue =>
           tail = [EvDelay (request_delay_min config) (request_delay_max config)]
           /\ page res.1.2 = page l + 1
           /\ total_items res.1.2 = total_items l + Z.of_nat (length lots')
           /\ (below_limit (total_items l) limit = true -> lots' <> [])
       | _ => tail = []
       end.
Proof.
  cbn zeta.
  destruct (fetch_page_events net (_build_url config category (page l)) st)
    as (gets & Hgets & Hall & Hft).
  destruct (scrape_page_stopped_or_loaded l st)
    as [(r & st' & -> & Hr & Ht & Hf)|(text & apollo_state & lots & Hf & He & Hb & Hl)].
  { exists gets, [], []. cbn [fst snd map length app]. rewrite Ht, Hgets, app_nil_r.
    split_and!; [done | done | done | constructor | lia | intros; lia |].
    by destruct Hr as [->|[e ->]]. }
  rewrite (scrape_page_loaded config net category limit _ _ _ _ _ _ _ Hf He Hb Hl).
  pose proof (fetch_page_items_found net (_build_url config category (page l)) st)
    as Hfound.
  set (st1 := (_fetch_page net (_build_url config category (page l)) st).2) in *.
  destruct (filter_new_spec lots (seen_ids l)) as (Hids & _).
  pose proof (emit_lots_spec category limit _ (total_items l)
                (with_stats incr_pages_scraped st1) Hids) as Hemit.
  pose proof (emit_lots_continue category limit _ (total_items l)
                (with_stats incr_pages_scraped st1) Hids) as Hcont.
  pose proof (emitted_length limit (total_items l) (filter_new lots (seen_ids l)).1)
    as [_ Hcap].
  cbn zeta in Hemit. destruct Hemit as (Hc & Htot & Htr & _ & _ & Hfnd).
  set (new_lots := (filter_new lots (seen_ids l)).1) in *.
  set (res := emit_lots category limit new_lots (total_items l)
                (with_stats incr_pages_scraped st1)) in *.
  cbn [with_stats trace stats incr_pages_scraped items_found] in Htr, Hfnd.
  assert (Forall has_id (emitted limit (total_items l) new_lots)) as Hids'.
  { unfold emitted. destruct limit; [by apply Forall_take | done]. }
  clearbody res.
  destruct new_lots as [|lot new_lots'] eqn:En.
  { exists gets, [], []. cbn [fst snd map length app with_stats trace stats].
    rewrite Hgets, app_nil_r. cbn [incr_pages_scraped items_found].
    split_and!; [done | done | done | constructor | lia | intros; lia | done]. }
  rewrite <- En in *.
  destruct (res.1.1) eqn:Ec; [|done|].
  - destruct (Z.of_nat (length lots) <? ITEMS_PER_PAGE `div` 2).
    + exists gets, (emitted limit (total_items l) new_lots), [].
      cbn [fst snd]. rewrite Htr, Hgets, app_nil_r, <- app_assoc.
      split_and!; [done | done | done | done | lia | done | done].
    + exists gets, (emitted limit (total_items l) new_lots),
        [EvDelay (request_delay_min config) (request_delay_max config)].
      cbn [fst snd _delay log trace stats page total_items].
      rewrite Htr, Hgets, <- !app_assoc.
      split_and!; [done | done | done | done | lia | done | done | done | lia |].
      intros _. rewrite (Hcont eq_refl), En. done.
  - exists gets, (emitted limit (total_items l) new_lots), [].
    cbn [fst snd]. rewrite Htr, Hgets, app_nil_r, <- app_assoc.
    split_and!; [done | done | done | done | lia | done | done].
Qed.

End Shape.

Lemma run_event_weaken (config : Config) (category : option string) (p q : Z)
    (e : event) :
  p <= q -> run_event config category q e -> run_event config category p e.
Proof.
  intros Hpq. destruct e; simpl; try done.
  intros (r & Hr & ->). exists r. split; [lia | done].
Qed.

Lemma run_event_yields (config : Config) (category : option string) (p : Z)
    (lots : list dict) :
  Forall has_id lots ->
  Forall (run_event config category p) (map (yield_of category) lots).
Proof.
  induction 1 as [|lot lots Hlot _ IH]; cbn [map]; constructor; [|done].
  unfold has_id in Hlot. unfold yield_of. cbn [run_event].
  rewrite get_item_id_enrich.
  destruct (_get_item_id lot) as [i|]; [|discriminate]. simpl in *.
  rewrite negb_true_iff, bool_decide_eq_false in Hlot. done.
Qed.

Lemma yield_categories_app (t u : list event) :
  yield_categories (t ++ u) = yield_categories t ++ yield_categories u.
Proof. apply omap_app. Qed.

Lemma run_event_categories (config : Config) (category : option string) (p : Z)
    (evs : list event) :
  Forall (run_event config category p) evs ->
  yield_categories evs = replicate (length (yield_ids evs)) category.
Proof.
  induction 1 as [|e evs He _ IH]; [done|].
  destruct e; simpl in *; try done.
  destruct He as (-> & _). fold (yield_categories evs). fold (yield_ids evs).
  by rewrite IH.
Qed.

Section Loop.

Context (config : Config) (net : network).
Context (category : option string) (limit : option Z).

(** The invariant of the [while] loop, for the shape of the trace, the
    count of items and the cap. *)
Lemma scrape_category_loop_shape fuel l st :
  let res := scrape_category_loop config net fuel category limit l st in
  exists evs,
    trace res.2 = trace st ++ evs
    /\ Forall (run_event config category (page l)) evs
    /\ items_found (stats res.2)
       = items_found (stats st) + Z.of_nat (length (yield_ids evs))
    /\ (forall cap, limit = Some cap ->
                    Z.of_nat (length (yield_ids evs)) <= Z.max 0 (cap - total_items l))
    /\ (forall cap, limit = Some cap ->
                    (Z.to_nat (cap - total_items l) <= fuel)%nat ->
                    res.1 <> OutOfFuel).
Proof.
  cbn zeta. revert l st. induction fuel as [|fuel IH]; intros l st;
    cbn [scrape_category_loop];
    destruct (below_limit (total_items l) limit) eqn:Hb; cbn [negb].
  - exists []. rewrite app_nil_r. simpl.
    split_and!; [done | constructor | lia | intros; lia |].
    intros cap -> Hfuel. simpl in Hb. apply Z.ltb_lt in Hb. lia.
  - exists []. rewrite app_nil_r. simpl.
    split_and!; [done | constructor | lia | intros; lia | done].
  - destruct (scrape_page_shape config net category limit l st)
      as (gets & lots' & tail & Ht & (Hgets & Hft) & Hids & Hfound & Hcap & Hctl).
    destruct (scrape_page config net category limit l st) as [[r l'] st'].
    cbn [fst snd] in *.
    assert (Forall (run_event config category (page l)) gets) as Hgets'.
    { eapply Forall_impl; [exact Hgets|]. intros e [-> | [-> | ->]]; simpl; auto.
      exists (page l). split; [lia | done]. }
    pose proof (run_event_yields config category (page l) lots' Hids) as Hyields.
    assert (yield_ids (gets ++ map (yield_of category) lots' ++ tail)
            = lot_ids lots') as Hyl.
    { rewrite !yield_ids_app, yield_ids_yields.
      replace (yield_ids gets) with (@nil string).
      - destruct r as [[]|]; try destruct Hctl as (-> & _); subst; simpl;
          by rewrite ?app_nil_r.
      - clear -Hgets. induction Hgets as [|e gets He _ IHg]; [done|].
        by destruct He as [-> | [-> | ->]]. }
    assert (length (lot_ids lots') = length lots') as Hlen
      by (unfold lot_ids; apply length_map).
    destruct r as [[]|e].
    + destruct Hctl as (-> & Hpage & Htotal & Hne).
      destruct (IH l' st') as (evs & Ht' & Hev & Hfound' & Hcap' & Hterm).
      exists ((gets ++ map (yield_of category) lots'
                 ++ [EvDelay (request_delay_min config) (request_delay_max config)])
              ++ evs).
      assert (lots' <> []) as Hne' by auto.
      assert (0 < length lots')%nat as Hpos by (destruct lots'; simpl; [done | lia]).
      rewrite yield_ids_app, Hyl, length_app, Hlen.
      split_and!.
      * by rewrite Ht', Ht, <- !app_assoc.
      * apply Forall_app. split.
        -- rewrite !Forall_app. split_and!; [done | done |]. by repeat constructor.
        -- eapply Forall_impl; [exact Hev|]. intros e.
           apply run_event_weaken. lia.
      * lia.
      * intros cap ->. specialize (Hcap cap eq_refl). specialize (Hcap' cap eq_refl).
        simpl in Hb. apply Z.ltb_lt in Hb. lia.
      * intros cap -> Hfuel. apply (Hterm cap eq_refl).
        simpl in Hb. apply Z.ltb_lt in Hb. clear -Hb Htotal Hpos Hfuel. lia.
    + subst tail. exists (gets ++ map (yield_of category) lots' ++ []).
      rewrite Hyl, Hlen. cbn [fst snd].
      split_and!; [done | | lia | done | done].
      rewrite !Forall_app. split_and!; [done | done | constructor].
    + subst tail. exists (gets ++ map (yield_of category) lots' ++ []).
      rewrite Hyl, Hlen. cbn [fst snd].
      split_and!; [done | | lia | done | done].
      rewrite !Forall_app. split_and!; [done | done | constructor].
    + subst tail. exists (gets ++ map (yield_of category) lots' ++ []).
      rewrite Hyl, Hlen. cbn [fst snd].
      split_and!; [done | | lia | done | done].
      rewrite !Forall_app. split_and!; [done | done | constructor].
  - exists []. rewrite app_nil_r. simpl.
    split_and!; [done | constructor | lia | intros; lia | done].
Qed.

End Loop.

Lemma zip_with_replicate_zero {A} (l : list A) :
  concat (zip_with replicate (replicate (length l) O) l) = [].
Proof. induction l as [|x l IH]; simpl; [done | exact IH]. Qed.

Section Session.

Context (config : Config) (net : network).

(** The invariant of the loop over the categories. *)
Lemma scrape_categories_shape fuel last todo st :
  let res := scrape_categories config net fuel last todo st in
  exists evs,
    trace res.2 = trace st ++ evs
    /\ Forall (fun e => exists c, c ∈ todo /\ run_event config c 1 e) evs
    /\ items_found (stats res.2)
       = items_found (stats st) + Z.of_nat (length (yield_ids evs))
    /\ errors (stats st) <= errors (stats res.2)
       <= errors (stats st) + Z.of_nat (length todo)
    /\ (exists ns,
          length ns = length todo
          /\ yield_categories evs = concat (zip_with replicate ns todo))
    /\ (test_mode config = true ->
        Z.of_nat (length (yield_ids evs))
        <= Z.max 0 (test_limit config)
           + Z.max 0 (test_limit config - 1 - items_found (stats st)))
    /\ (test_mode config = true ->
        (Z.to_nat (test_limit config) <= fuel)%nat ->
        res.1 <> OutOfFuel).
Proof.
  cbn zeta. revert st. induction todo as [|category rest IH]; intros st.
  { exists []. simpl. rewrite app_nil_r.
    split_and!; [done | constructor | lia | lia | lia | by exists [] | lia | done]. }
  cbn [scrape_categories]. unfold scrape_category.
  destruct (scrape_category_loop_shape config net category (session_limit config)
              fuel first_page st)
    as (evs1 & Ht1 & Hev1 & Hfound1 & Hcap1 & Hterm1).
  destruct (scrape_category_loop_effects config net category (session_limit config)
              fuel first_page st)
    as (_ & _ & _ & _ & Herr1).
  pose proof (run_event_categories config category _ evs1 Hev1) as Hcat1.
  assert (Forall (fun e => exists c, c ∈ category :: rest /\ run_event config c 1 e)
            evs1) as Hev1'.
  { eapply Forall_impl; [exact Hev1|]. intros e He. exists category.
    split; [by left | exact He]. }
  assert (test_mode config = true ->
          Z.of_nat (length (yield_ids evs1)) <= Z.max 0 (test_limit config)) as Hy1.
  { intros Htest. specialize (Hcap1 (test_limit config)).
    unfold session_limit in Hcap1. rewrite Htest in Hcap1.
    specialize (Hcap1 eq_refl). simpl in Hcap1. lia. }
  assert (test_mode config = true ->
          (Z.to_nat (test_limit config) <= fuel)%nat ->
          (scrape_category_loop config net fuel category (session_limit config)
             first_page st).1 <> OutOfFuel) as Hfuel1.
  { intros Htest Hfuel. apply (Hterm1 (test_limit config)).
    - unfold session_limit. by rewrite Htest.
    - simpl. by rewrite Z.sub_0_r. }
  destruct (scrape_category_loop config net fuel category (session_limit config)
              first_page st) as [o st1].
  cbn [fst snd] in *.
  assert (exists evs,
            trace st1 = trace st ++ evs
            /\ Forall (fun e => exists c, c ∈ category :: rest /\ run_event config c 1 e)
                 evs
            /\ items_found (stats st1)
               = items_found (stats st) + Z.of_nat (length (yield_ids evs))
            /\ errors (stats st) <= errors (stats st1)
               <= errors (stats st) + Z.of_nat (length (category :: rest))
            /\ (exists ns,
                  length ns = length (category :: rest)
                  /\ yield_categories evs
                     = concat (zip_with replicate ns (category :: rest)))
            /\ (test_mode config = true ->
                Z.of_nat (length (yield_ids evs))
                <= Z.max 0 (test_limit config)
                   + Z.max 0 (test_limit config - 1 - items_found (stats st))))
    as Hstop.
  { exists evs1.
    split_and!; [done | done | done | simpl; lia | simpl length; lia |
                 | intros Htest; specialize (Hy1 Htest); lia].
    exists (length (yield_ids evs1) :: replicate (length rest) O).
    split; [simpl; by rewrite length_replicate|].
    simpl. by rewrite zip_with_replicate_zero, app_nil_r. }
  destruct o as [|e|].
  2:{ destruct Hstop as (evs & ? & ? & ? & ? & ? & ?). exists evs.
      cbn [fst snd]. split_and!; try done; lia. }
  2:{ destruct Hstop as (evs & ? & ? & ? & ? & ? & ?). exists evs.
      cbn [fst snd]. split_and!; try done; lia. }
  destruct (test_mode config && (test_limit config <=? items_found (stats st1)))
    eqn:Hcheck.
  { destruct Hstop as (evs & ? & ? & ? & ? & ? & ?). exists evs.
    cbn [fst snd]. split_and!; try done; lia. }
  set (st2 := if bool_decide (category ≠ last) then _delay config st1 else st1).
  assert (exists gap,
             trace st2 = trace st1 ++ gap /\ stats st2 = stats st1
             /\ yield_ids gap = [] /\ yield_categories gap = []
             /\ Forall (fun e => exists c, c ∈ category :: rest
                                           /\ run_event config c 1 e) gap)
    as (gap & Hgap & Hstats2 & Hgy & Hgc & Hgev).
  { subst st2. destruct (bool_decide (category ≠ last)).
    - exists [EvDelay (request_delay_min config) (request_delay_max config)].
      split_and!; try done. repeat constructor. exists category.
      split; [by left | done].
    - exists []. rewrite app_nil_r. split_and!; try done. }
  destruct (IH st2) as (evs2 & Ht2 & Hev2 & Hfound2 & Herr2 & (ns & Hns & Hcat2)
                        & Hbound2 & Hterm2).
  exists (evs1 ++ gap ++ evs2).
  rewrite !yield_ids_app, !yield_categories_app, Hgy, Hgc. cbn [app].
  rewrite !length_app. rewrite Hstats2 in *.
  split_and!.
  - by rewrite Ht2, Hgap, Ht1, <- !app_assoc.
  - rewrite !Forall_app. split_and!; [done | done |].
    eapply Forall_impl; [exact Hev2|]. intros e (c & Hc & He).
    exists c. split; [by right | done].
  - lia.
  - lia.
  - simpl length. lia.
  - exists (length (yield_ids evs1) :: ns). split; [simpl; by rewrite Hns|].
    simpl. by rewrite Hcat1, Hcat2.
  - intros Htest. specialize (Hy1 Htest). specialize (Hbound2 Htest).
    rewrite Htest in Hcheck. simpl in Hcheck. apply Z.leb_gt in Hcheck. lia.
  - exact Hterm2.
Qed.

End Session.

(** ** What a run hands on and counts *)

(** X8. In test mode one category never yields more than [test_limit]
    items, and none when the limit is not positive, however many
    iterations are granted and whatever the site sends. *)
Theorem category_cap (config : Config) (net : network) (fuel : nat)
    (category : option string) (st : state) :
  test_mode config = true ->
  let res := scrape_category config net fuel category st in
  exists evs,
    trace res.2 = trace st ++ evs
    /\ Z.of_nat (length (yield_ids evs)) <= Z.max 0 (test_limit config).
Proof.
  intros Htest. cbn zeta. unfold scrape_category.
  destruct (scrape_category_loop_shape config net category (session_limit config)
              fuel first_page st)
    as (evs & Ht & _ & _ & Hcap & _).
  exists evs. split; [done|].
  specialize (Hcap (test_limit config)). unfold session_limit in Hcap.
  rewrite Htest in Hcap. specialize (Hcap eq_refl). simpl in Hcap. lia.
Qed.

Lemma category_cap_witness :
  exists evs,
    trace (scrape_category capped capped_site 3 (Some "b") initial).2
    = trace initial ++ evs
    /\ Z.of_nat (length (yield_ids evs)) <= Z.max 0 (test_limit capped).
Proof. apply (category_cap capped capped_site 3 (Some "b") initial). reflexivity. Defined.

(** X9. Over a session, [items_found] grows by exactly the number of
    items handed to the caller, whether the session ends, raises or is
    cut short. *)
Theorem items_found_counts_yields (config : Config) (net : network) (fuel : nat)
    (st : state) :
  let res := scrape_all config net fuel st in
  exists evs,
    trace res.2 = trace st ++ evs
    /\ items_found (stats res.2)
       = items_found (stats st) + Z.of_nat (length (yield_ids evs)).
Proof.
  cbn zeta. unfold scrape_all.
  destruct (scrape_categories_shape config net fuel
              (List.last (categories config) None) (categories config) st)
    as (evs & Ht & _ & Hfound & _).
  by exists evs.
Qed.

(** X10. In test mode a session always comes to an end: [test_limit]
    iterations for each category are enough, whatever the site sends. *)
Theorem test_mode_terminates (config : Config) (net : network) (fuel : nat)
    (st : state) :
  test_mode config = true ->
  (Z.to_nat (test_limit config) <= fuel)%nat ->
  (scrape_all config net fuel st).1 <> OutOfFuel.
Proof.
  intros Htest Hfuel. unfold scrape_all.
  destruct (scrape_categories_shape config net fuel
              (List.last (categories config) None) (categories config) st)
    as (evs & _ & _ & _ & _ & _ & _ & Hterm).
  by apply Hterm.
Qed.

Lemma test_mode_terminates_witness :
  (scrape_all capped capped_site 2 initial).1 <> OutOfFuel
  /\ test_limit capped = 2.
Proof.
  split; [|reflexivity].
  apply (test_mode_terminates capped capped_site 2 initial); [reflexivity|].
  vm_compute. lia.
Defined.

(** X11. In test mode a session of a scraper that has found nothing
    yet yields at most 2 * [test_limit] - 1 items, and none when the
    limit is not positive: the session count is looked at between
    categories only, and the last category started may add
    [test_limit] items of its own. *)
Theorem session_cap (config : Config) (net : network) (fuel : nat) (st : state) :
  test_mode config = true ->
  items_found (stats st) = 0 ->
  let res := scrape_all config net fuel st in
  exists evs,
    trace res.2 = trace st ++ evs
    /\ Z.of_nat (length (yield_ids evs)) <= Z.max 0 (2 * test_limit config - 1).
Proof.
  intros Htest Hzero. cbn zeta. unfold scrape_all.
  destruct (scrape_categories_shape config net fuel
              (List.last (categories config) None) (categories config) st)
    as (evs & Ht & _ & _ & _ & _ & Hbound & _).
  exists evs. split; [done|]. specialize (Hbound Htest). lia.
Qed.

Lemma session_cap_witness :
  exists evs,
    trace (scrape_all capped capped_site 3 initial).2 = trace initial ++ evs
    /\ Z.of_nat (length (yield_ids evs)) <= Z.max 0 (2 * test_limit capped - 1).
Proof.
  apply (session_cap capped capped_site 3 initial); reflexivity.
Defined.

(** X12. A session never lowers the error count and raises it by at
    most one for each category: an error ends the category it occurs
    in. *)
Theorem session_errors (config : Config) (net : network) (fuel : nat) (st : state) :
  let res := scrape_all config net fuel st in
  errors (stats st) <= errors (stats res.2)
  <= errors (stats st) + Z.of_nat (length (categories config)).
Proof.
  cbn zeta. unfold scrape_all.
  destruct (scrape_categories_shape config net fuel
              (List.last (categories config) None) (categories config) st)
    as (evs & _ & _ & _ & Herr & _).
  exact Herr.
Qed.

(** X13. Whatever the site sends, a session only asks for pages, from
    page 1 on, of the configured categories (of the listing of all lots
    when none is configured), only backs off 5 or 10 seconds, only
    waits the configured delay, and only hands on records under one of
    these categories, with a non-empty identifier that can be derived
    from the record again. *)
Theorem session_events (config : Config) (net : network) (fuel : nat) (st : state) :
  let res := scrape_all config net fuel st in
  exists evs,
    trace res.2 = trace st ++ evs
    /\ Forall (fun e => exists c, c ∈ categories config /\ run_event config c 1 e) evs.
Proof.
  cbn zeta. unfold scrape_all.
  destruct (scrape_categories_shape config net fuel
              (List.last (categories config) None) (categories config) st)
    as (evs & Ht & Hev & _).
  by exists evs.
Qed.

(** X14. The items of a session come category by category, in the
    order of the configuration: the categories of the items handed on
    are a first run for the first category, then a run for the second,
    and so on (a run may be empty). *)
Theorem session_category_order (config : Config) (net : network) (fuel : nat)
    (st : state) :
  let res := scrape_all config net fuel st in
  exists evs ns,
    trace res.2 = trace st ++ evs
    /\ length ns = length (categories config)
    /\ yield_categories evs = concat (zip_with replicate ns (categories config)).
Proof.
  cbn zeta. unfold scrape_all.
  destruct (scrape_categories_shape config net fuel
              (List.last (categories config) None) (categories config) st)
    as (evs & Ht & _ & _ & _ & (ns & Hns & Hcat) & _).
  by exists evs, ns.
Qed.

(** ** Exceptions that leave the engine *)

Section Robust.

Context (config : Config) (net : network).

Hypothesis site_ok :
  forall history url text, net history url = Response text -> page_ok text = true.

Lemma scrape_page_no_raise category limit l st e :
  (scrape_page config net category limit l st).1.1 <> Raise e.
Proof.
  unfold scrape_page.
  destruct (_fetch_page net (_build_url config category (page l)) st)
    as [fetched st1] eqn:Hf.
  destruct fetched as [text|]; [|done].
  destruct (fetch_page_from_site net _ _ _ _ Hf) as (history & Hsite).
  apply site_ok in Hsite.
  destruct text as [| | |state_data]; try done.
  destruct state_data as [| | | | | |state_data]; try done.
  cbn [_extract_apollo_state]. cbn [page_ok] in Hsite.
  set (apollo_state := default (VDict []) (dict_get "apollo.state" state_data)) in *.
  unfold cache_ok in Hsite.
  destruct (py_bool apollo_state) eqn:Hb; cbn [negb] in *; [|done].
  destruct apollo_state as [| | | | | |items]; try discriminate.
  simpl in Hsite. rewrite forallb_forall in Hsite.
  assert (Forall (fun fields => refs_hashable fields = true) (lot_entities items))
    as Hall.
  { apply Forall_forall. intros fields Hin. by apply Hsite, list_elem_of_In. }
  cbn [_extract_lots_from_apollo].
  destruct (collect_lots_total items (collect_auctions items ∅) items Hall)
    as (lots & ->).
  destruct (filter_new lots (seen_ids l)) as [[|lot new_lots] seen]; [done|].
  destruct (emit_lots _ _ _ _ _) as [[[] total] st']; try done.
  all: try by destruct (_ <? _).
Qed.

Lemma scrape_category_loop_no_raise fuel category limit l st e :
  (scrape_category_loop config net fuel category limit l st).1 <> Raised e.
Proof.
  revert l st. induction fuel as [|fuel IH]; intros l st; cbn [scrape_category_loop];
    destruct (below_limit (total_items l) limit); cbn [negb]; try done.
  pose proof (scrape_page_no_raise category limit l st) as Hpage.
  destruct (scrape_page config net category limit l st) as [[r l'] st'].
  cbn [fst snd] in Hpage.
  destruct r as [[]|e']; try done.
  by destruct (Hpage e').
Qed.

Lemma scrape_categories_no_raise fuel last todo st e :
  (scrape_categories config net fuel last todo st).1 <> Raised e.
Proof.
  revert st. induction todo as [|category rest IH]; intros st; [done|].
  cbn [scrape_categories]. unfold scrape_category.
  pose proof (scrape_category_loop_no_raise fuel category (session_limit config)
                first_page st) as Hcat.
  destruct (scrape_category_loop config net fuel category (session_limit config)
              first_page st) as [[|e'|] st1]; cbn [fst snd] in *.
  - destruct (_ && _); [done | apply IH].
  - intros _. by apply (Hcat e').
  - done.
Qed.

End Robust.



(** X16. An exception of the resolver is not caught: when the cache of
    the first page of a category makes [_extract_lots_from_apollo]
    raise, the session ends there with that exception. Nothing of the
    page is handed on, neither the page nor an error is counted, and
    the categories that follow are not visited. *)
Theorem resolver_error_ends_session (config : Config) (net : network)
    (category : option string) (rest : list (option string))
    (last : option string) (st : state)
    (text : html) (st1 : state) (apollo_state : value) (st2 : state) (e : exn) :
  below_limit 0 (session_limit config) = true ->
  _fetch_page net (_build_url config category 1) st = (Some text, st1) ->
  _extract_apollo_state text st1 = (Some apollo_state, st2) ->
  py_bool apollo_state = true ->
  _extract_lots_from_apollo apollo_state = Raise e ->
  forall fuel,
    scrape_categories config net (S fuel) last (category :: rest) st
    = (Raised e, st1)
    /\ stats st1 = stats st.
Proof.
  intros Hlim Hf He Hb Hl fuel.
  destruct (extract_apollo_state_some _ _ _ _ He) as [-> Hne].
  split; [|by eapply fetch_page_some].
  cbn [scrape_categories]. unfold scrape_category.
  cbn [scrape_category_loop]. cbn [first_page total_items]. rewrite Hlim. cbn [negb].
  unfold scrape_page. cbn [page first_page]. rewrite Hf.
  destruct text; [done|..]; by rewrite He, Hb, Hl.
Qed.

Lemma resolver_error_ends_session_witness :
  scrape_categories two_categories broken_site 1 (Some "b") [Some "a"; Some "b"]
    initial
  = (Raised TypeError, log (EvGet (_build_url two_categories (Some "a") 1)) initial)
  /\ stats (log (EvGet (_build_url two_categories (Some "a") 1)) initial)
     = stats initial.
Proof.
  apply (resolver_error_ends_session two_categories broken_site (Some "a")
           [Some "b"] (Some "b") initial (page_of unhashable_cache)
           (log (EvGet (_build_url two_categories (Some "a") 1)) initial)
           (VDict unhashable_cache)
           (log (EvGet (_build_url two_categories (Some "a") 1)) initial)
           TypeError); reflexivity.
Defined.

(** ** The database address *)

Lemma str_remove_go_skip (old u s : string) :
  str_remove_go old (String.length u) (u +:+ s) = str_remove_go old O s.
Proof. induction u as [|c u IH]; simpl; [done | exact IH]. Qed.

Lemma str_remove_absent (old s : string) :
  str_occurs old s = false -> str_remove old s = s.
Proof.
  unfold str_remove. induction s as [|c s IH]; [done|].
  cbn [str_occurs]. intros [Hp Hs]%orb_false_iff.
  cbn [str_remove_go]. rewrite Hp. f_equal. by apply IH.
Qed.

Lemma string_prefix_app (u s : string) : String.prefix u (u +:+ s) = true.
Proof.
  induction u as [|c u IH]; simpl; [by destruct s|].
  by destruct (Ascii.ascii_dec c c).
Qed.

Lemma str_remove_prefix (old s : string) :
  old <> "" -> str_remove old (old +:+ s) = str_remove old s.
Proof.
  destruct old as [|c old]; [done|]. intros _. unfold str_remove.
  change (String c old +:+ s) with (String c (old +:+ s)).
  cbn [str_remove_go].
  change (String c (old +:+ s)) with (String c old +:+ s).
  rewrite string_prefix_app.
  replace (String.length (String c old) - 1)%nat with (String.length old)
    by (simpl; lia).
  apply str_remove_go_skip.
Qed.

(** X17. [get_sqlite_path] gives a path exactly for the addresses that
    start with [sqlite:], which are never PostgreSQL addresses. From
    [sqlite:///] followed by a path it gives back that path, provided
    the path does not itself contain [sqlite:///]. An address that
    starts with [sqlite:] but nowhere holds [sqlite:///] comes back
    whole, scheme included. *)
Theorem sqlite_path (config : Config) :
  (get_sqlite_path config = None <-> is_sqlite config = false)
  /\ (is_sqlite config = true -> is_postgres config = false)
  /\ (forall path,
        database_url config = "sqlite:///" +:+ path ->
        str_occurs "sqlite:///" path = false ->
        get_sqlite_path config = Some path)
  /\ (is_sqlite config = true ->
      str_occurs "sqlite:///" (database_url config) = false ->
      get_sqlite_path config = Some (database_url config)).
Proof.
  unfold get_sqlite_path, is_sqlite, is_postgres. split_and!.
  - by destruct (String.prefix "sqlite:" (database_url config)).
  - destruct (database_url config) as [|c url]; [done|].
    cbn [String.prefix]. destruct (Ascii.ascii_dec "s" c) as [<-|]; [|done].
    intros _. by destruct (Ascii.ascii_dec "p" "s").
  - intros path -> Hpath.
    replace (String.prefix "sqlite:" ("sqlite:///" +:+ path)) with true
      by reflexivity.
    f_equal. rewrite str_remove_prefix by done. by apply str_remove_absent.
  - intros -> Hurl. f_equal. by apply str_remove_absent.
Qed.

(** ** The grammar of a run *)

Section Grammar.

Context (config : Config) (net : network).

Lemma scrape_category_loop_grammar fuel category limit l st :
  let res := scrape_category_loop config net fuel category limit l st in
  exists evs,
    trace res.2 = trace st ++ evs
    /\ pages_trace config category (page l) evs.
Proof.
  cbn zeta. revert l st. induction fuel as [|fuel IH]; intros l st;
    cbn [scrape_category_loop];
    destruct (below_limit (total_items l) limit) eqn:Hb; cbn [negb];
    try (exists []; rewrite app_nil_r; split; [done | constructor]).
  destruct (scrape_page_shape config net category limit l st)
    as (gets & lots' & tail & Ht & (_ & Hft) & Hids & _ & _ & Hctl).
  destruct (scrape_page config net category limit l st) as [[r l'] st'].
  cbn [fst snd] in *.
  destruct r as [[]|e].
  - destruct Hctl as (-> & Hpage & _ & Hne).
    destruct (IH l' st') as (evs & Ht' & Hev). rewrite Hpage in Hev.
    exists (gets ++ map (yield_of category) lots'
              ++ EvDelay (request_delay_min config) (request_delay_max config) :: evs).
    split.
    + by rewrite Ht', Ht, <- !app_assoc.
    + apply pages_next; auto.
  - subst tail. rewrite app_nil_r in Ht.
    exists (gets ++ map (yield_of category) lots'). split; [done | by constructor].
  - subst tail. rewrite app_nil_r in Ht.
    exists (gets ++ map (yield_of category) lots'). split; [done | by constructor].
  - subst tail. rewrite app_nil_r in Ht.
    exists (gets ++ map (yield_of category) lots'). split; [done | by constructor].
Qed.

Lemma scrape_categories_grammar fuel last todo st :
  let res := scrape_categories config net fuel last todo st in
  exists evs,
    trace res.2 = trace st ++ evs
    /\ session_trace config last todo evs.
Proof.
  cbn zeta. revert st. induction todo as [|category rest IH]; intros st.
  { exists []. simpl. rewrite app_nil_r. split; [done | constructor]. }
  cbn [scrape_categories]. unfold scrape_category.
  destruct (scrape_category_loop_grammar fuel category (session_limit config)
              first_page st) as (run & Ht1 & Hrun).
  cbn [page first_page] in Hrun.
  destruct (scrape_category_loop config net fuel category (session_limit config)
              first_page st) as [o st1].
  cbn [fst snd] in *.
  destruct o as [|e|]; try (exists run; split; [done | by apply session_stop]).
  destruct (test_mode config && (test_limit config <=? items_found (stats st1)));
    [exists run; split; [done | by apply session_stop]|].
  destruct (IH (if bool_decide (category ≠ last) then _delay config st1 else st1))
    as (others & Ht2 & Hothers).
  exists (run ++ (if bool_decide (category ≠ last)
                  then [EvDelay (request_delay_min config) (request_delay_max config)]
                  else [])
              ++ others).
  split; [|by apply session_next].
  rewrite Ht2. destruct (bool_decide (category ≠ last)); simpl;
    rewrite Ht1, <- !app_assoc; done.
Qed.

End Grammar.

(** X18. What a run over one category adds to the trace has the form
    of [pages_trace] from page 1 on: the pages are asked for in order,
    none is left out, each page is fetched once (with at most two
    retries, after 5 and 10 seconds), the lots of a page are handed on
    after its fetch, and exactly one delay stands between the lots of a
    page and the fetch of the next page. *)
Theorem category_trace_grammar (config : Config) (net : network) (fuel : nat)
    (category : option string) (st : state) :
  let res := scrape_category config net fuel category st in
  exists evs,
    trace res.2 = trace st ++ evs
    /\ pages_trace config category 1 evs.
Proof.
  cbn zeta. unfold scrape_category.
  apply (scrape_category_loop_grammar config net fuel category
           (session_limit config) first_page st).
Qed.

(** X19. What a session adds to the trace has the form of
    [session_trace]: one run for each category visited, in the order
    of the configuration, and between two runs one delay, except after
    a category that has the name of the last configured one, where
    there is none. With the names all different, that is one delay
    between any two categories. *)
Theorem session_trace_grammar (config : Config) (net : network) (fuel : nat)
    (st : state) :
  let res := scrape_all config net fuel st in
  exists evs,
    trace res.2 = trace st ++ evs
    /\ session_trace config (List.last (categories config) None)
         (categories config) evs.
Proof.
  cbn zeta. unfold scrape_all. apply scrape_categories_grammar.
Qed.

(** ** The table of items *)

Section Table.

Context (dumps : dict -> string).

Lemma select_item_app (i : string) (a b : list item_row) :
  select_item i (a ++ b)
  = match select_item i a with
    | Some r => Some r
    | None => select_item i b
    end.
Proof.
  unfold select_item. induction a as [|r a IH]; [done|].
  simpl. by destruct (bool_decide (row_item_id r = i)).
Qed.

Lemma select_item_Some (i : string) (rows : list item_row) (r : item_row) :
  select_item i rows = Some r -> r ∈ rows /\ row_item_id r = i.
Proof.
  unfold select_item. induction rows as [|r' rows IH]; [done|].
  simpl. destruct (bool_decide_reflect (row_item_id r' = i)) as [E|E].
  - intros [= <-]. split; [by left | done].
  - intros H. destruct (IH H). split; [by right | done].
Qed.

Lemma select_item_None (i : string) (rows : list item_row) :
  select_item i rows = None <-> i ∉ map row_item_id rows.
Proof.
  unfold select_item. induction rows as [|r rows IH]; simpl.
  { split; [intros _; apply not_elem_of_nil | done]. }
  rewrite not_elem_of_cons.
  destruct (bool_decide_reflect (row_item_id r = i)) as [E|E].
  - split; [done | intros [H _]; by destruct H].
  - rewrite IH. split; [by split | by intros [_ H]].
Qed.

Lemma update_row_item_id i js t z rad c (r : item_row) :
  row_item_id (update_row i js t z rad c r) = row_item_id r.
Proof. unfold update_row. by destruct (bool_decide _). Qed.

Lemma update_row_identity i js t z rad c (r : item_row) :
  row_identity (update_row i js t z rad c r) = row_identity r.
Proof. unfold update_row. by destruct (bool_decide _). Qed.

Lemma update_row_other i js t z rad c (r : item_row) :
  row_item_id r <> i -> update_row i js t z rad c r = r.
Proof. intros H. unfold update_row. by rewrite bool_decide_eq_false_2. Qed.

Lemma select_item_update i js t z rad c (j : string) (rows : list item_row) :
  select_item j (map (update_row i js t z rad c) rows)
  = update_row i js t z rad c <$> select_item j rows.
Proof.
  unfold select_item. induction rows as [|r rows IH]; [done|].
  simpl. rewrite update_row_item_id.
  by destruct (bool_decide (row_item_id r = j)).
Qed.

(** The row of the identifier after [upsert_item] holds the JSON text
    of the item. *)
Lemma upsert_item_get_same db i raw z rad c t ct :
  exists r,
    get_item (upsert_item dumps db i raw z rad c t ct).2 i = Some r
    /\ row_item_id r = i /\ row_raw_json r = dumps raw.
Proof.
  unfold upsert_item, get_item.
  destruct (select_item i (auction_items db)) as [existing|] eqn:E.
  - destruct (select_item_Some _ _ _ E) as [_ Hid].
    destruct (bool_decide_reflect (row_raw_json existing = dumps raw)) as [Hj|Hj];
      cbn [negb snd auction_items].
    + by exists existing.
    + rewrite select_item_update, E. eexists. split; [done|].
      unfold update_row. by rewrite bool_decide_eq_true_2.
  - cbn [snd auction_items]. rewrite select_item_app, E.
    unfold select_item. simpl. rewrite bool_decide_eq_true_2 by done.
    by eexists.
Qed.

(** The rows of the other identifiers are as they were. *)
Lemma upsert_item_get_other db i raw z rad c t ct (j : string) :
  j <> i ->
  get_item (upsert_item dumps db i raw z rad c t ct).2 j = get_item db j.
Proof.
  intros Hne. unfold upsert_item, get_item.
  destruct (select_item i (auction_items db)) as [existing|] eqn:E.
  - destruct (bool_decide (row_raw_json existing = dumps raw));
      cbn [negb snd auction_items]; [done|].
    rewrite select_item_update.
    destruct (select_item j (auction_items db)) as [r|] eqn:Ej; [|done].
    destruct (select_item_Some _ _ _ Ej) as [_ Hid]. simpl.
    rewrite update_row_other; [done | congruence].
  - cbn [snd auction_items]. rewrite select_item_app.
    destruct (select_item j (auction_items db)); [done|].
    unfold select_item. simpl. by rewrite bool_decide_eq_false_2.
Qed.

(** The identifiers in the table after [upsert_item]. *)
Lemma upsert_item_ids db i raw z rad c t ct :
  stored_ids (upsert_item dumps db i raw z rad c t ct).2 = {[i]} ∪ stored_ids db.
Proof.
  unfold upsert_item, stored_ids.
  destruct (select_item i (auction_items db)) as [existing|] eqn:E.
  - destruct (select_item_Some _ _ _ E) as [Hin Hid].
    assert (i ∈ map row_item_id (auction_items db)) as Hi.
    { rewrite <- Hid. apply list_elem_of_fmap. by exists existing. }
    destruct (bool_decide (row_raw_json existing = dumps raw));
      cbn [negb snd auction_items].
    + apply set_eq. intros x. rewrite elem_of_union, elem_of_singleton,
        elem_of_list_to_set. naive_solver.
    + rewrite map_map.
      rewrite (map_ext _ row_item_id) by (intros; apply update_row_item_id).
      apply set_eq. intros x. rewrite elem_of_union, elem_of_singleton,
        elem_of_list_to_set. naive_solver.
  - cbn [snd auction_items]. rewrite map_app. simpl.
    apply set_eq. intros x.
    rewrite elem_of_union, elem_of_singleton, !elem_of_list_to_set,
      elem_of_app, list_elem_of_singleton.
    naive_solver.
Qed.

(** The flag [is_new] says that the identifier was not in the table. *)
Lemma upsert_item_new db i raw z rad c t ct :
  (upsert_item dumps db i raw z rad c t ct).1.1 = true <-> i ∉ stored_ids db.
Proof.
  unfold upsert_item, stored_ids. rewrite elem_of_list_to_set.
  destruct (select_item i (auction_items db)) as [existing|] eqn:E.
  - destruct (select_item_Some _ _ _ E) as [Hin Hid].
    assert (i ∈ map row_item_id (auction_items db)) as Hi.
    { rewrite <- Hid. apply list_elem_of_fmap. by exists existing. }
    destruct (negb _); simpl; split; done.
  - apply select_item_None in E. simpl. split; done.
Qed.

(** The count after [upsert_item]. *)
Lemma upsert_item_count db i raw z rad c t ct :
  let res := upsert_item dumps db i raw z rad c t ct in
  get_item_count res.2 = get_item_count db + (if res.1.1 then 1 else 0).
Proof.
  cbn zeta. unfold upsert_item, get_item_count.
  destruct (select_item i (auction_items db)) as [existing|].
  - destruct (negb _); cbn [fst snd auction_items]; rewrite ?length_map; lia.
  - cbn [fst snd auction_items]. rewrite length_app. simpl. lia.
Qed.

(** [upsert_item] keeps the table as the schema wants it. *)
Lemma upsert_item_table_ok db i raw z rad c t ct :
  table_ok db -> table_ok (upsert_item dumps db i raw z rad c t ct).2.
Proof.
  intros (Hids & Hkeys & Hle). unfold table_ok, upsert_item.
  destruct (select_item i (auction_items db)) as [existing|] eqn:E.
  - destruct (negb _); cbn [snd auction_items last_row_id]; [|done].
    rewrite !map_map.
    rewrite (map_ext _ row_item_id) by (intros; apply update_row_item_id).
    rewrite (map_ext (fun x => row_id (update_row _ _ _ _ _ _ x)) row_id).
    2:{ intros r. unfold update_row. by destruct (bool_decide _). }
    split_and!; [done | done |].
    apply Forall_fmap. eapply Forall_impl; [exact Hle|].
    intros r Hr. simpl. unfold update_row. by destruct (bool_decide _).
  - apply select_item_None in E.
    cbn [snd auction_items last_row_id]. rewrite !map_app. simpl.
    split_and!.
    + apply NoDup_app. split_and!; [done | | apply NoDup_singleton].
      intros x Hx ->%list_elem_of_singleton. done.
    + apply NoDup_app. split_and!; [done | | apply NoDup_singleton].
      intros x Hx ->%list_elem_of_singleton.
      apply list_elem_of_fmap in Hx as (r & Hr & Hin).
      rewrite Forall_forall in Hle. apply Hle in Hin. lia.
    + apply Forall_app. split.
      * eapply Forall_impl; [exact Hle|]. intros r Hr. simpl in *. lia.
      * apply Forall_singleton. simpl. lia.
Qed.

(** What stays of the rows, after [upsert_item]. *)
Lemma upsert_item_identity db i raw z rad c t ct :
  let res := upsert_item dumps db i raw z rad c t ct in
  map row_identity (auction_items res.2)
  = map row_identity (auction_items db)
      ++ (if res.1.1 then [(last_row_id db + 1, i, ct)] else []).
Proof.
  cbn zeta. unfold upsert_item.
  destruct (select_item i (auction_items db)) as [existing|].
  - destruct (negb _); cbn [fst snd auction_items]; rewrite app_nil_r; [|done].
    rewrite map_map. apply map_ext. intros r. apply update_row_identity.
  - cbn [fst snd auction_items]. by rewrite map_app.
Qed.

(** ** The loop of [main] *)

Lemma last_arrival_cons (i : string) (a : arrival) (rest : list arrival) :
  last_arrival i (a :: rest)
  = match last_arrival i rest with
    | Some x => Some x
    | None => if bool_decide (arrival_item_id a = i) then Some a else None
    end.
Proof.
  unfold last_arrival. simpl.
  generalize (rev rest) as l. intros l.
  induction l as [|x l IH]; simpl.
  - by destruct (bool_decide _).
  - by destruct (bool_decide (arrival_item_id x = i)).
Qed.

(** One turn of the loop. *)
Lemma store_items_cons config db (a : arrival) (rest : list arrival) added updated :
  let res := upsert_item dumps db (arrival_item_id a) (arrival_raw_json a)
               (zip_code config) (radius_miles config) (arrival_category a)
               (arrival_scraped_at a) (arrival_created_at a) in
  exists added' updated',
    store_items dumps config db (a :: rest) added updated
    = store_items dumps config res.2 rest added' updated'
    /\ added' = added + (if res.1.1 then 1 else 0)
    /\ updated <= updated'
    /\ (added' - added) + (updated' - updated) <= 1.
Proof.
  cbn zeta. cbn [store_items].
  destruct (upsert_item _ _ _ _ _ _ _ _ _) as [[[] []] db1]; cbn [fst snd];
    eexists _, _; (split; [reflexivity | lia]).
Qed.

(** Counting the identifiers that are new to the table. *)
Lemma size_new_id (i : string) (R D : gset string) :
  i ∉ D -> size (({[i]} ∪ R) ∖ D) = S (size (R ∖ ({[i]} ∪ D))).
Proof.
  intros Hi.
  assert (({[i]} ∪ R) ∖ D = {[i]} ∪ (R ∖ ({[i]} ∪ D))) as ->.
  { apply set_eq. intros x. destruct (decide (x = i)); set_solver. }
  rewrite size_union by set_solver. by rewrite size_singleton.
Qed.

Lemma ids_old_id (i : string) (R D : gset string) :
  i ∈ D -> ({[i]} ∪ R) ∖ D = R ∖ ({[i]} ∪ D).
Proof. set_solver. Qed.

Lemma ids_assoc (i : string) (R D : gset string) :
  {[i]} ∪ D ∪ R = D ∪ ({[i]} ∪ R).
Proof. set_solver. Qed.

(** The invariant of the loop. *)
Lemma store_items_spec config (arrivals : list arrival) db added updated :
  let res := store_items dumps config db arrivals added updated in
  added <= res.1.1 /\ updated <= res.1.2
  /\ (res.1.1 - added) + (res.1.2 - updated) <= Z.of_nat (length arrivals)
  /\ get_item_count res.2 = get_item_count db + (res.1.1 - added)
  /\ stored_ids res.2 = stored_ids db ∪ list_to_set (map arrival_item_id arrivals)
  /\ Z.of_nat (size (list_to_set (map arrival_item_id arrivals) ∖ stored_ids db))
     = res.1.1 - added
  /\ (table_ok db -> table_ok res.2)
  /\ map row_identity (auction_items db)
       `prefix_of` map row_identity (auction_items res.2).
Proof.
  cbn zeta. revert db added updated.
  induction arrivals as [|a rest IH]; intros db added updated.
  { simpl. split_and!; try lia; try done.
    - set_solver.
    - replace (∅ ∖ stored_ids db) with (∅ : gset string) by set_solver.
      rewrite size_empty. lia. }
  destruct (store_items_cons config db a rest added updated)
    as (added' & updated' & -> & Ha & Hu & Hsum).
  pose proof (upsert_item_ids db (arrival_item_id a) (arrival_raw_json a)
                (zip_code config) (radius_miles config) (arrival_category a)
                (arrival_scraped_at a) (arrival_created_at a)) as Hids.
  pose proof (upsert_item_new db (arrival_item_id a) (arrival_raw_json a)
                (zip_code config) (radius_miles config) (arrival_category a)
                (arrival_scraped_at a) (arrival_created_at a)) as Hnew.
  pose proof (upsert_item_count db (arrival_item_id a) (arrival_raw_json a)
                (zip_code config) (radius_miles config) (arrival_category a)
                (arrival_scraped_at a) (arrival_created_at a)) as Hcount.
  pose proof (upsert_item_table_ok db (arrival_item_id a) (arrival_raw_json a)
                (zip_code config) (radius_miles config) (arrival_category a)
                (arrival_scraped_at a) (arrival_created_at a)) as Hok.
  pose proof (upsert_item_identity db (arrival_item_id a) (arrival_raw_json a)
                (zip_code config) (radius_miles config) (arrival_category a)
                (arrival_scraped_at a) (arrival_created_at a)) as Hrows.
  cbn zeta in *.
  set (res := upsert_item dumps db (arrival_item_id a) (arrival_raw_json a)
                (zip_code config) (radius_miles config) (arrival_category a)
                (arrival_scraped_at a) (arrival_created_at a)) in *.
  destruct (IH res.2 added' updated')
    as (Ha' & Hu' & Hsum' & Hcount' & Hids' & Hsize' & Hok' & Hrows').
  set (out := store_items dumps config res.2 rest added' updated') in *.
  clearbody out. cbn [length map list_to_set foldr].
  assert (Z.of_nat (size (({[arrival_item_id a]}
                            ∪ list_to_set (map arrival_item_id rest))
                           ∖ stored_ids db))
          = out.1.1 - added) as Hsize.
  { rewrite Hids in Hsize'. destruct (res.1.1) eqn:En.
    - rewrite size_new_id by by apply Hnew. lia.
    - rewrite ids_old_id; [lia|].
      destruct (decide (arrival_item_id a ∈ stored_ids db)) as [|Hn]; [done|].
      apply Hnew in Hn. congruence. }
  split_and!; try lia; try done.
  - rewrite Hids', Hids. apply ids_assoc.
  - auto.
  - etrans; [|exact Hrows']. rewrite Hrows. by apply prefix_app_r.
Qed.

(** The row of an identifier after the loop holds the JSON text of its
    last arrival; the rows of identifiers that did not arrive are as
    they were. *)
Lemma store_items_last config (arrivals : list arrival) db added updated
    (i : string) :
  let res := store_items dumps config db arrivals added updated in
  match last_arrival i arrivals with
  | Some a =>
      exists r, get_item res.2 i = Some r
                /\ row_item_id r = i
                /\ row_raw_json r = dumps (arrival_raw_json a)
  | None => get_item res.2 i = get_item db i
  end.
Proof.
  cbn zeta. revert db added updated.
  induction arrivals as [|a rest IH]; intros db added updated; [done|].
  destruct (store_items_cons config db a rest added updated)
    as (added' & updated' & -> & _).
  rewrite last_arrival_cons.
  specialize (IH (upsert_item dumps db (arrival_item_id a) (arrival_raw_json a)
                    (zip_code config) (radius_miles config) (arrival_category a)
                    (arrival_scraped_at a) (arrival_created_at a)).2
                added' updated').
  destruct (last_arrival i rest) as [x|]; [done|].
  rewrite IH.
  destruct (bool_decide_reflect (arrival_item_id a = i)) as [<-|Hne].
  - apply upsert_item_get_same.
  - apply upsert_item_get_other. congruence.
Qed.

Lemma arrivals_ids (clock : nat -> string * string) (n : nat) (t : list event) :
  map arrival_item_id (arrivals clock n t) = yield_ids t.
Proof.
  revert n. induction t as [|e t IH]; intros n; [done|].
  destruct e; simpl; by rewrite ?IH.
Qed.

End Table.

(** X20. What [upsert_item] stores, [get_item] gives back: after the
    call the table has a row under the identifier, with the JSON text
    of the item, whether the item was new, changed or unchanged; and
    the rows of all other identifiers are as they were. *)
Theorem upsert_then_get (dumps : dict -> string) (db : Database)
    (item_id : string) (raw_json : dict) (zip_code : string) (radius_miles : Z)
    (category : option string) (scraped_at created_at : string) :
  let db' := (upsert_item dumps db item_id raw_json zip_code radius_miles
                category scraped_at created_at).2 in
  (exists r,
      get_item db' item_id = Some r
      /\ row_item_id r = item_id /\ row_raw_json r = dumps raw_json)
  /\ forall j, j <> item_id -> get_item db' j = get_item db j.
Proof.
  cbn zeta. split.
  - apply upsert_item_get_same.
  - intros j. apply upsert_item_get_other.
Qed.

(** X21. Storing an item again with the same JSON changes nothing and
    reports neither a new nor an updated item, even when the zip code,
    the radius, the category or the time differ from those of the first
    call: the row keeps what was stored with it first. *)
Theorem upsert_unchanged_is_noop (dumps : dict -> string) (db : Database)
    (item_id : string) (raw_json : dict)
    (zip_code zip_code' : string) (radius_miles radius_miles' : Z)
    (category category' : option string)
    (scraped_at scraped_at' created_at created_at' : string) :
  let db1 := (upsert_item dumps db item_id raw_json zip_code radius_miles
                category scraped_at created_at).2 in
  upsert_item dumps db1 item_id raw_json zip_code' radius_miles' category'
    scraped_at' created_at'
  = ((false, false), db1).
Proof.
  cbn zeta.
  destruct (upsert_item_get_same dumps db item_id raw_json zip_code radius_miles
              category scraped_at created_at) as (r & Hget & _ & Hjson).
  set (db1 := (upsert_item dumps db item_id raw_json zip_code radius_miles
                 category scraped_at created_at).2) in *.
  clearbody db1. unfold get_item in Hget. unfold upsert_item.
  by rewrite Hget, Hjson, bool_decide_eq_true_2.
Qed.

(** X22. The two flags of [upsert_item]: the item is reported new
    exactly when the table had no row under its identifier, and updated
    exactly when it had one with another JSON text; never both. The
    count of the table grows by one for a new item and stays as it is
    otherwise, and with both flags off the table is untouched. *)
Theorem upsert_flags (dumps : dict -> string) (db : Database)
    (item_id : string) (raw_json : dict) (zip_code : string) (radius_miles : Z)
    (category : option string) (scraped_at created_at : string) :
  let res := upsert_item dumps db item_id raw_json zip_code radius_miles
               category scraped_at created_at in
  (res.1.1 = true <-> get_item db item_id = None)
  /\ (res.1.2 = true
      <-> exists r, get_item db item_id = Some r /\ row_raw_json r <> dumps raw_json)
  /\ res.1.1 && res.1.2 = false
  /\ get_item_count res.2 = get_item_count db + (if res.1.1 then 1 else 0)
  /\ (res.1.1 = false -> res.1.2 = false -> res.2 = db).
Proof.
  cbn zeta. split_and!; [| | | apply upsert_item_count |];
    unfold upsert_item, get_item;
    destruct (select_item item_id (auction_items db)) as [existing|];
    try destruct (bool_decide_reflect (row_raw_json existing = dumps raw_json));
    cbn [negb fst snd andb]; try done.
  - split; [done|]. by intros (r & [= <-] & Hne).
  - split; [intros _; by exists existing | done].
  - split; [done | by intros (r & ? & _)].
Qed.

(** X23. [upsert_item] keeps the table as the schema wants it: on a
    table with no identifier twice, no key twice and no key above the
    last one given out, it leaves such a table. The [INSERT] never
    meets a row with its identifier, so that the [UNIQUE] constraint
    cannot fail. *)
Theorem upsert_keeps_unique (dumps : dict -> string) (db : Database)
    (item_id : string) (raw_json : dict) (zip_code : string) (radius_miles : Z)
    (category : option string) (scraped_at created_at : string) :
  table_ok db ->
  table_ok (upsert_item dumps db item_id raw_json zip_code radius_miles
              category scraped_at created_at).2.
Proof. apply upsert_item_table_ok. Qed.

(** X24. [upsert_item] never deletes or moves a row, and a row keeps
    its key, its identifier and its time of creation through every
    update. The only change to that part of the table is a new row at
    the end, for a new item, under the key after the last one given
    out and with the time SQLite read at the insertion. *)
Theorem rows_keep_identity (dumps : dict -> string) (db : Database)
    (item_id : string) (raw_json : dict) (zip_code : string) (radius_miles : Z)
    (category : option string) (scraped_at created_at : string) :
  let res := upsert_item dumps db item_id raw_json zip_code radius_miles
               category scraped_at created_at in
  map row_identity (auction_items res.2)
  = map row_identity (auction_items db)
      ++ (if res.1.1 then [(last_row_id db + 1, item_id, created_at)] else []).
Proof. apply upsert_item_identity. Qed.

(** X25. The counts of the loop of [main]: [items_added] and
    [items_updated] together never exceed the number of items
    received; [items_added] is the number of different identifiers
    received that the table did not have, and the count of the table
    grows by just that; afterwards the table has the identifiers it
    had and those received. *)
Theorem store_items_counts (dumps : dict -> string) (config : Config)
    (db : Database) (arrivals : list arrival) :
  let res := store_items dumps config db arrivals 0 0 in
  0 <= res.1.1 /\ 0 <= res.1.2
  /\ res.1.1 + res.1.2 <= Z.of_nat (length arrivals)
  /\ res.1.1
     = Z.of_nat (size (list_to_set (map arrival_item_id arrivals) ∖ stored_ids db))
  /\ get_item_count res.2 = get_item_count db + res.1.1
  /\ stored_ids res.2 = stored_ids db ∪ list_to_set (map arrival_item_id arrivals).
Proof.
  cbn zeta.
  destruct (store_items_spec dumps config arrivals db 0 0)
    as (Ha & Hu & Hsum & Hcount & Hids & Hsize & _).
  split_and!; [done | done | lia | lia | lia | done].
Qed.

(** X26. The last arrival wins: after the loop of [main] the row of an
    identifier holds the JSON text of the item that came last under
    it, and the rows of identifiers that did not come are as they
    were. *)
Theorem store_items_last_wins (dumps : dict -> string) (config : Config)
    (db : Database) (arrivals : list arrival) (item_id : string) :
  let res := store_items dumps config db arrivals 0 0 in
  match last_arrival item_id arrivals with
  | Some a =>
      exists r, get_item res.2 item_id = Some r
                /\ row_item_id r = item_id
                /\ row_raw_json r = dumps (arrival_raw_json a)
  | None => get_item res.2 item_id = get_item db item_id
  end.
Proof. apply store_items_last. Qed.

(** The run of [main] in terms of the session and of the loop. *)
Lemma main_run_spec (dumps : dict -> string) (clock : nat -> string * string)
    (config : Config) (net : network) (fuel : nat) (db : Database)
    (code : Z) (run : scrape_run) (db' : Database) :
  main_run dumps clock config net fuel db = Some (code, run, db') ->
  exists o st added updated,
    scrape_all config net fuel initial = (o, st)
    /\ store_items dumps config db (arrivals clock 0 (trace st)) 0 0
       = (added, updated, db')
    /\ items_found (stats st) = Z.of_nat (length (yield_ids (trace st)))
    /\ 0 <= errors (stats st)
    /\ run_items_found run = items_found (stats st)
    /\ ((code = 0 /\ o = Finished /\ run_status run = "completed"
         /\ run_items_added run = added /\ run_items_updated run = updated
         /\ run_errors run = errors (stats st))
        \/ (code = 1 /\ (exists e, o = Raised e) /\ run_status run = "failed"
            /\ run_items_added run = 0 /\ run_items_updated run = 0
            /\ run_errors run = errors (stats st) + 1)).
Proof.
  unfold main_run.
  pose proof (scrape_categories_shape config net fuel
                (List.last (categories config) None) (categories config) initial)
    as (evs & Ht & _ & Hfound & Herr & _).
  fold (scrape_all config net fuel initial) in *.
  destruct (scrape_all config net fuel initial) as [o st].
  cbn [fst snd initial trace stats new_stats items_found errors app] in *.
  subst evs.
  destruct (store_items dumps config db (arrivals clock 0 (trace st)) 0 0)
    as [[added updated] db1] eqn:Hs.
  destruct o as [|e|]; intros [= <- <- <-];
    eexists _, st, added, updated; simpl;
    (split_and!; [reflexivity | done | lia | lia | done |]).
  - left. by split_and!.
  - right. split_and!; try done. by exists e.
Qed.

Lemma arrivals_events (clock : nat -> string * string) (n : nat) (t : list event)
    (a : arrival) :
  a ∈ arrivals clock n t ->
  EvYield (arrival_item_id a) (arrival_raw_json a) (arrival_category a) ∈ t.
Proof.
  revert n. induction t as [|e t IH]; intros n; [by intros ?%elem_of_nil|].
  destruct e as [url|seconds|lo hi|i item c]; simpl;
    try (intros H; right; by eapply IH).
  intros [->|H]%elem_of_cons; [by left | right; by eapply IH].
Qed.

Lemma last_arrival_Some (i : string) (l : list arrival) (a : arrival) :
  last_arrival i l = Some a -> a ∈ l /\ arrival_item_id a = i.
Proof.
  induction l as [|x l IH]; [done|].
  rewrite last_arrival_cons. destruct (last_arrival i l) as [y|].
  - intros [= ->]. destruct IH as [Hin Hid]; [done|]. split; [by right | done].
  - destruct (bool_decide_reflect (arrival_item_id x = i)); [|done].
    intros [= ->]. split; [by left | done].
Qed.

Lemma last_arrival_is_Some (i : string) (l : list arrival) :
  i ∈ map arrival_item_id l -> is_Some (last_arrival i l).
Proof.
  induction l as [|x l IH]; [by intros ?%elem_of_nil|].
  rewrite last_arrival_cons. simpl. intros [->|H]%elem_of_cons.
  - destruct (last_arrival _ l); [done|]. by rewrite bool_decide_eq_true_2.
  - destruct (IH H) as [y ->]. done.
Qed.

Lemma arrivals_length (clock : nat -> string * string) (n : nat) (t : list event) :
  length (arrivals clock n t) = length (yield_ids t).
Proof. by rewrite <- (arrivals_ids clock n t), length_map. Qed.


(** X28. The row of a completed run: [main] returns 0, and the counts
    it records fit the table and one another. [items_added] and
    [items_updated] together do not exceed [items_found],
    [items_added] is the number of rows the table gained, and [errors]
    is the count of the scraper, at most one for each category. *)
Theorem completed_run_record (dumps : dict -> string)
    (clock : nat -> string * string) (config : Config) (net : network)
    (fuel : nat) (db : Database) (code : Z) (run : scrape_run) (db' : Database) :
  main_run dumps clock config net fuel db = Some (code, run, db') ->
  run_status run = "completed" ->
  code = 0
  /\ 0 <= run_items_added run /\ 0 <= run_items_updated run
  /\ run_items_added run + run_items_updated run <= run_items_found run
  /\ get_item_count db' = get_item_count db + run_items_added run
  /\ 0 <= run_errors run <= Z.of_nat (length (categories config)).
Proof.
  intros Hmain Hstatus.
  pose proof (scrape_categories_shape config net fuel
                (List.last (categories config) None) (categories config) initial)
    as (evs & _ & _ & _ & Herr & _).
  fold (scrape_all config net fuel initial) in Herr.
  apply main_run_spec in Hmain
    as (o & st & added & updated & Hrun & Hstore & Hfound & _ & Hrf & Hcase).
  rewrite Hrun in Herr. cbn [fst snd initial stats new_stats errors] in Herr.
  pose proof (store_items_spec dumps config (arrivals clock 0 (trace st)) db 0 0)
    as (Ha & Hu & Hsum & Hcount & _).
  cbn zeta in *. rewrite Hstore in *. cbn [fst snd] in *.
  rewrite arrivals_length in Hsum.
  destruct Hcase as [(-> & _ & _ & -> & -> & ->)|(_ & _ & Hf & _)];
    [|rewrite Hstatus in Hf; discriminate].
  split_and!; lia.
Qed.

(** X29. The row of a failed run: when the session raises, [main]
    returns 1 and records no item as added and none as updated, and one
    error more than the scraper counted. The items yielded before the
    exception are in the table all the same: the table gained a row for
    every different identifier yielded that it did not have. *)
Theorem failed_run_record (dumps : dict -> string)
    (clock : nat -> string * string) (config : Config) (net : network)
    (fuel : nat) (db : Database) (code : Z) (run : scrape_run) (db' : Database) :
  main_run dumps clock config net fuel db = Some (code, run, db') ->
  run_status run = "failed" ->
  code = 1
  /\ run_items_added run = 0 /\ run_items_updated run = 0
  /\ exists e st,
      scrape_all config net fuel initial = (Raised e, st)
      /\ run_items_found run = Z.of_nat (length (yield_ids (trace st)))
      /\ run_errors run = errors (stats st) + 1
      /\ 1 <= run_errors run
      /\ get_item_count db'
         = get_item_count db
           + Z.of_nat (size (list_to_set (yield_ids (trace st)) ∖ stored_ids db)).
Proof.
  intros Hmain Hstatus.
  apply main_run_spec in Hmain
    as (o & st & added & updated & Hrun & Hstore & Hfound & Herr & Hrf & Hcase).
  pose proof (store_items_spec dumps config (arrivals clock 0 (trace st)) db 0 0)
    as (_ & _ & _ & Hcount & _ & Hsize & _).
  cbn zeta in *. rewrite Hstore in *. cbn [fst snd] in *.
  rewrite arrivals_ids in Hsize.
  destruct Hcase as [(_ & _ & Hc & _)|(-> & (e & ->) & _ & -> & -> & He)];
    [rewrite Hstatus in Hc; discriminate|].
  split_and!; try done.
  exists e, st. split_and!; [done | lia | done | lia | lia].
Qed.

(** ** Instances for the table and the run *)

Lemma upsert_keeps_unique_witness :
  table_ok empty_database
  /\ table_ok (upsert_item dumps_repr empty_database "1" (lot_fields 1)
                 "90210" 50 (Some "a") "2024-01-01T12:00:00+00:00"
                 "2024-01-01 12:00:00").2.
Proof.
  assert (table_ok empty_database) as H.
  { unfold table_ok, empty_database. simpl. split_and!; constructor. }
  split; [exact H|].
  exact (upsert_keeps_unique dumps_repr empty_database "1" (lot_fields 1)
           "90210" 50 (Some "a") "2024-01-01T12:00:00+00:00"
           "2024-01-01 12:00:00" H).
Defined.


Lemma completed_run_record_witness :
  exists run db',
    main_run dumps_repr noon capped capped_site 5 empty_database
    = Some (0, run, db')
    /\ run_status run = "completed"
    /\ run_items_added run + run_items_updated run <= run_items_found run
    /\ get_item_count db' = get_item_count empty_database + run_items_added run.
Proof.
  eexists _, _. split; [vm_compute; reflexivity|]. split; [reflexivity|].
  refine (let H := completed_run_record dumps_repr noon capped capped_site 5
                     empty_database 0 _ _ _ _ in
          conj (proj1 (proj2 (proj2 (proj2 H))))
               (proj1 (proj2 (proj2 (proj2 (proj2 H)))))).
  all: vm_compute; reflexivity.
Defined.

Lemma failed_run_record_witness :
  exists run db',
    main_run dumps_repr noon two_categories late_broken_site 5 empty_database
    = Some (1, run, db')
    /\ run_status run = "failed"
    /\ run_items_added run = 0
    /\ get_item_count db' = 1.
Proof.
  eexists _, _. split; [vm_compute; reflexivity|]. split; [reflexivity|].
  split; [|reflexivity].
  refine (proj1 (proj2 (failed_run_record dumps_repr noon two_categories
                          late_broken_site 5 empty_database 1 _ _ _ _))).
  - vm_compute. reflexivity.
  - reflexivity.
Defined.
